(** * SeaYou: route planning, hazard analysis and offline navigation

    A shallow embedding of the navigation core of the SeaYou marine
    assistant:

    - [routePlanningService]: Haversine distance, bearing, route
      distance, navigation state, waypoint insertion;
    - [nauticalChartService]: seamark depth parsing, route/hazard
      analysis, avoidance waypoint, rerouting verdict;
    - [OfflineNavigationSystem]: the navigation controller (start, stop,
      pause, resume, position updates, waypoint and course checks);
    - [RoutePlanningView]: the handler that inserts avoidance waypoints.

    Storage.  What [localStorage] holds under a key is a value of the
    model: the saved routes an optional list, the chart cache a map from
    keys to snapshots; writing is taken to succeed.

    Number model.  A coordinate, a distance, a speed, a draft or a margin
    is read as a real number: for these [NaN], the infinities, signed
    zeros and rounding are outside the model.  [Math.sin], [Math.cos],
    [Math.sqrt] are the real functions, and [Math.atan2] and the
    remainder operator are written out below.  A division by zero, which
    JavaScript answers with [NaN] or an infinity, is outside the model as
    well (Rocq's [x / 0] is [0]).
    A depth is the one number that comes from text, through
    [parseFloat]: it is a [Js.Number], which can be [NaN] or infinite,
    and its comparisons are false on [NaN] as in JavaScript.  In a
    hazard read back from the cache a depth can also be the [null] that
    JSON writes for [NaN] and the infinities.
    Optional fields ([radius?], [depth?], [insertIndex?]) are [option]s.
    Clock reads ([new Date()]) and fresh identifiers are arguments: a
    handler reads the clock once. *)

From Stdlib Require Import Reals Lra Lia ZArith List String.
From stdpp Require Import base decidable option list strings gmap pretty.

Local Open Scope R_scope.

(** ** JavaScript arithmetic on the real model *)

Module Js.

#[global] Instance R_eq_decision : EqDecision R := Req_dec_T.
#[global] Instance Rlt_decision : RelDecision Rlt := Rlt_dec.
#[global] Instance Rle_decision : RelDecision Rle := Rle_dec.
#[global] Instance Rgt_decision : RelDecision Rgt := Rgt_dec.
#[global] Instance Rge_decision : RelDecision Rge := Rge_dec.

(** [x || d] for an optional number: [undefined] and [0] are falsy. *)
Definition or_default (x : option R) (d : R) : R :=
  match x with
  | Some r => if decide (r = 0) then d else r
  | None => d
  end.

(** Truncation toward zero, as the remainder operator uses it. *)
Definition trunc (x : R) : Z :=
  if decide (0 <= x) then Int_part x else (- Int_part (- x))%Z.

(** [x % y]: the result takes the sign of the dividend. *)
Definition rem (x y : R) : R := x - y * IZR (trunc (x / y)).

(** [Math.atan2(y, x)], by quadrant. *)
Definition atan2 (y x : R) : R :=
  if decide (0 < x) then atan (y / x)
  else if decide (x < 0) then
         if decide (0 <= y) then atan (y / x) + PI else atan (y / x) - PI
  else if decide (0 < y) then PI / 2
  else if decide (y < 0) then - (PI / 2)
  else 0.

(** [Math.round]: the nearest integer, ties toward plus infinity. *)
Definition round (x : R) : Z := Int_part (x + / 2).

(** [for (let i = 0; i < n; i++) acc = body(i, acc)] *)
Definition for_range {A : Type} (n : nat) (body : nat -> A -> A) (init : A) : A :=
  fold_left (fun acc i => body i acc) (seq 0 n) init.

(** [Math.floor]. *)
Definition floor (x : R) : Z := Int_part x.

(** A number that was parsed from text: [parseFloat] gives [NaN] for a
    text that does not start with a number, and an infinity for the text
    [Infinity] or a magnitude too large to hold. *)
Inductive Number : Type := NaN | NegInfinity | Finite (r : R) | Infinity.

(** [a < b], [a <= b] and [a >= b] on such numbers: each is false as soon
    as one side is [NaN]. *)
Definition lt (a b : Number) : Prop :=
  match a, b with
  | NaN, _ | _, NaN => False
  | NegInfinity, NegInfinity => False
  | NegInfinity, _ => True
  | Finite _, NegInfinity => False
  | Finite x, Finite y => x < y
  | Finite _, Infinity => True
  | Infinity, _ => False
  end.

Definition le (a b : Number) : Prop :=
  match a, b with
  | NaN, _ | _, NaN => False
  | NegInfinity, _ => True
  | Finite _, NegInfinity => False
  | Finite x, Finite y => x <= y
  | Finite _, Infinity => True
  | Infinity, Infinity => True
  | Infinity, _ => False
  end.

Definition ge (a b : Number) : Prop := le b a.

#[global] Instance lt_decision : RelDecision lt.
Proof. intros [| |x|] [| |y|]; simpl; apply _. Defined.

#[global] Instance le_decision : RelDecision le.
Proof. intros [| |x|] [| |y|]; simpl; apply _. Defined.

#[global] Instance ge_decision : RelDecision ge.
Proof. intros a b. unfold ge. apply _. Defined.

(** A number or [null], as an operand of a comparison: [null] counts
    as 0. *)
Definition toNumber (v : option Number) : Number :=
  match v with
  | Some n => n
  | None => Finite 0
  end.

(** A number after [JSON.stringify] and [JSON.parse]: [NaN] and the
    infinities come back as [null]. *)
Definition throughJSON (n : Number) : option Number :=
  match n with
  | Finite r => Some (Finite r)
  | _ => None
  end.

(** [x.toFixed(digits)], for a magnitude below 10^21: the sign, then the
    integer nearest to [|x| * 10^digits] (the larger one on a tie), with
    the decimal point put [digits] places from the right. *)
Definition toFixed (digits : nat) (x : R) : string :=
  let n := round (Rabs x * 10 ^ digits) in
  let m := pretty (Z.to_N n) in
  let k := String.length m in
  let m :=
    if decide (k <= digits)%nat
    then String.concat "" (replicate (digits + 1 - k) "0") +:+ m
    else m in
  let k := String.length m in
  let body :=
    if decide (digits = 0%nat) then m
    else substring 0 (k - digits) m +:+ "." +:+ substring (k - digits) digits m in
  (if decide (x < 0) then "-" else "") +:+ body.

End Js.

(** ** types/navigation *)

Inductive WaypointType : Type := start | waypoint | destination.

#[global] Instance WaypointType_eq_decision : EqDecision WaypointType.
Proof. solve_decision. Defined.

Record Waypoint : Type := mkWaypoint {
  wp_id : string;
  wp_lat : R;
  wp_lon : R;
  wp_name : string;
  wp_timestamp : option Z;
  wp_type : WaypointType
}.

Record Route : Type := mkRoute {
  route_id : string;
  route_name : string;
  waypoints : list Waypoint;
  totalDistance : R;
  estimatedTime : R;
  createdAt : Z;
  averageSpeed : R
}.

(** The [currentPosition] argument of [calculateNavigationState]. *)
Record Position : Type := mkPosition {
  pos_lat : R;
  pos_lon : R;
  pos_heading : R;
  pos_speed : R
}.

Record NavigationState : Type := mkNavigationState {
  currentPosition : Position;
  heading : R;
  speed : R;
  nextWaypoint : option Waypoint;
  distanceToNext : R;
  bearingToNext : R;
  etaToNext : R;
  progress : R
}.

(** ** routePlanningService *)

Module RoutePlanning.

Definition toRadians (degrees : R) : R := degrees * PI / 180.
Definition toDegrees (radians : R) : R := radians * 180 / PI.

Definition calculateDistance (lat1 lon1 lat2 lon2 : R) : R :=
  let R0 := 3440.065 in
  let dLat := toRadians (lat2 - lat1) in
  let dLon := toRadians (lon2 - lon1) in
  let a :=
    sin (dLat / 2) * sin (dLat / 2) +
    cos (toRadians lat1) * cos (toRadians lat2) *
    sin (dLon / 2) * sin (dLon / 2) in
  let c := 2 * Js.atan2 (sqrt a) (sqrt (1 - a)) in
  R0 * c.

Definition calculateBearing (lat1 lon1 lat2 lon2 : R) : R :=
  let dLon := toRadians (lon2 - lon1) in
  let y := sin dLon * cos (toRadians lat2) in
  let x :=
    cos (toRadians lat1) * sin (toRadians lat2) -
    sin (toRadians lat1) * cos (toRadians lat2) * cos dLon in
  let bearing := Js.atan2 y x in
  let bearing := toDegrees bearing in
  Js.rem (bearing + 360) 360.

(** [calculateDistance(ws[i].lat, ws[i].lon, ws[i+1].lat, ws[i+1].lon)].
    Both loops that use it keep [i + 1] inside the array, so the last
    branch is never taken by them. *)
Definition legDistance (ws : list Waypoint) (i : nat) : R :=
  match ws !! i, ws !! S i with
  | Some a, Some b =>
      calculateDistance (wp_lat a) (wp_lon a) (wp_lat b) (wp_lon b)
  | _, _ => 0
  end.

Definition calculateRouteDistance (ws : list Waypoint) : R :=
  Js.for_range (length ws - 1)
    (fun i totalDistance => totalDistance + legDistance ws i) 0.

Definition calculateETA (distanceNM speedKnots : R) : R :=
  if decide (speedKnots = 0) then 0 else distanceNM / speedKnots * 60.

Definition calculateNavigationState
  (pos : Position) (route : Route) (currentWaypointIndex : nat)
  : NavigationState :=
  match waypoints route !! S currentWaypointIndex with
  | None =>
      {| currentPosition := pos;
         heading := pos_heading pos;
         speed := pos_speed pos;
         nextWaypoint := None;
         distanceToNext := 0;
         bearingToNext := 0;
         etaToNext := 0;
         progress := 100 |}
  | Some next =>
      let distanceToNext :=
        calculateDistance (pos_lat pos) (pos_lon pos) (wp_lat next) (wp_lon next) in
      let bearingToNext :=
        calculateBearing (pos_lat pos) (pos_lon pos) (wp_lat next) (wp_lon next) in
      let etaToNext := calculateETA distanceToNext (pos_speed pos) in
      let totalDistance := calculateRouteDistance (waypoints route) in
      let completedDistance :=
        Js.for_range currentWaypointIndex
          (fun i completed => completed + legDistance (waypoints route) i) 0 in
      let progress := completedDistance / totalDistance * 100 in
      {| currentPosition := pos;
         heading := pos_heading pos;
         speed := pos_speed pos;
         nextWaypoint := Some next;
         distanceToNext := distanceToNext;
         bearingToNext := bearingToNext;
         etaToNext := etaToNext;
         progress := progress |}
  end.

Definition isNearWaypoint
  (currentLat currentLon waypointLat waypointLon thresholdNM : R) : bool :=
  let distance := calculateDistance currentLat currentLon waypointLat waypointLon in
  bool_decide (distance <= thresholdNM).

(** The default [thresholdNM] of [isNearWaypoint]. *)
Definition defaultThresholdNM : R := 0.1.

(** A place given by the caller: [{lat, lon, name}]. *)
Record Place : Type := mkPlace {
  place_lat : R;
  place_lon : R;
  place_name : string
}.

(** [generateId()] and [new Date()] are the arguments [freshId], [now]. *)
Definition generateRoute
  (freshId : string) (now : Z) (from to : Place) (averageSpeed : R) : Route :=
  let waypoints :=
    [ {| wp_id := "start"; wp_lat := place_lat from; wp_lon := place_lon from;
         wp_name := place_name from; wp_timestamp := Some now; wp_type := start |};
      {| wp_id := "destination"; wp_lat := place_lat to; wp_lon := place_lon to;
         wp_name := place_name to; wp_timestamp := None; wp_type := destination |} ] in
  let distance := calculateRouteDistance waypoints in
  let estimatedTime := distance / averageSpeed in
  {| route_id := freshId;
     route_name := place_name from +:+ " to " +:+ place_name to;
     waypoints := waypoints;
     totalDistance := distance;
     estimatedTime := estimatedTime;
     createdAt := now;
     averageSpeed := averageSpeed |}.

(** [Array.prototype.splice(start, 0, x)] on a copy: a negative [start]
    counts from the end, and the position is clamped into [0, length]. *)
Definition spliceStart {A : Type} (l : list A) (start : Z) : nat :=
  let len := Z.of_nat (length l) in
  if decide (start < 0)%Z then Z.to_nat (Z.max (len + start) 0)
  else Z.to_nat (Z.min start len).

Definition spliceInsert {A : Type} (l : list A) (start : Z) (x : A) : list A :=
  let k := spliceStart l start in
  take k l ++ x :: drop k l.

Definition addWaypoint
  (freshId : string) (route : Route) (p : Place) (insertIndex : option Z) : Route :=
  let newWaypoint :=
    {| wp_id := freshId; wp_lat := place_lat p; wp_lon := place_lon p;
       wp_name := place_name p; wp_timestamp := None; wp_type := waypoint |} in
  let newWaypoints :=
    match insertIndex with
    | Some i => spliceInsert (waypoints route) i newWaypoint
    | None =>
        spliceInsert (waypoints route)
          (Z.of_nat (length (waypoints route)) - 1) newWaypoint
    end in
  let totalDistance := calculateRouteDistance newWaypoints in
  let estimatedTime := totalDistance / averageSpeed route in
  {| route_id := route_id route;
     route_name := route_name route;
     waypoints := newWaypoints;
     totalDistance := totalDistance;
     estimatedTime := estimatedTime;
     createdAt := createdAt route;
     averageSpeed := averageSpeed route |}.

(** [localStorage.getItem('savedRoutes')] read through [JSON.parse]:
    [None] when the key is absent. *)
Definition getSavedRoutes (saved : option (list Route)) : list Route :=
  match saved with
  | None => []
  | Some routes => routes
  end.

Definition saveRoute (route : Route) (saved : option (list Route))
  : option (list Route) :=
  let routes := getSavedRoutes saved in
  Some (routes ++ [route]).

Definition deleteRoute (routeId : string) (saved : option (list Route))
  : option (list Route) :=
  let routes := filter (fun r => route_id r <> routeId) (getSavedRoutes saved) in
  Some routes.

Definition formatDistance (nauticalMiles : R) : string :=
  if decide (nauticalMiles < 0.1) then
    pretty (Js.round (nauticalMiles * 1852)) +:+ " m"
  else Js.toFixed 2 nauticalMiles +:+ " NM".

Definition formatTime (minutes : R) : string :=
  let hours := Js.floor (minutes / 60) in
  let mins := Js.round (Js.rem minutes 60) in
  if decide (hours = 0%Z) then pretty mins +:+ " min"
  else pretty hours +:+ "h " +:+ pretty mins +:+ "m".

Definition cardinals : list string :=
  ["N"; "NE"; "E"; "SE"; "S"; "SW"; "W"; "NW"].

(** The characters between the number and the cardinal, as the file has
    them. *)
Definition degreeMark : string := "Â° ".

(** [cardinals[index]] inside a template: an index outside the array
    prints as [undefined]. *)
Definition cardinalAt (index : Z) : string :=
  if decide (index < 0)%Z then "undefined"
  else default "undefined" (cardinals !! Z.to_nat index).

Definition formatBearing (degrees : R) : string :=
  let index := Z.rem (Js.round (degrees / 45)) 8 in
  pretty (Js.round degrees) +:+ degreeMark +:+ cardinalAt index.

End RoutePlanning.

(** ** nauticalChartService *)

Module NauticalChart.

Inductive HazardType : Type :=
  | reef | shallow_water | wreck | rock | restricted_area | military_zone
  | anchorage_prohibited | fishing_prohibited | speed_limit
  | traffic_separation | cable_area | pipeline.

Inductive Severity : Type := info | warning | danger | critical.

Inductive Source : Type := osm | noaa | ukho | user.

#[global] Instance Severity_eq_decision : EqDecision Severity.
Proof. solve_decision. Defined.

Record LatLon : Type := mkLatLon { lat : R; lon : R }.

(** [depth?: number]: [None] when the field is absent; otherwise the
    value, [Some n] for a number and [None] for the [null] that only a
    hazard read back from the cache can have. *)
Record NauticalHazard : Type := mkHazard {
  hz_id : string;
  hz_type : HazardType;
  hz_lat : R;
  hz_lon : R;
  radius : option R;
  polygon : option (list LatLon);
  depth : option (option Js.Number);
  description : option string;
  severity : Severity;
  source : Source
}.

Record BoundingBox : Type := mkBoundingBox {
  north : R; south : R; east : R; west : R
}.

(** One entry of [RouteAnalysis.hazards]. *)
Record RouteHazard : Type := mkRouteHazard {
  hazard : NauticalHazard;
  distanceFromRoute : R;
  waypointSegment : nat
}.

(** The template strings pushed to [warnings], with their holes. *)
Inductive Warning : Type :=
  | CriticalWarning (roundedDistance : Z) (what : string) (fromWp toWp : nat)
  | DangerWarning (roundedDistance : Z) (what : string) (fromWp toWp : nat)
  | PlainWarning (what : string) (roundedDistance : Z) (fromWp toWp : nat)
  | ShallowWaterWarning (minDepth : Js.Number) (vesselDraft : R).

(** The template strings pushed to [recommendations]. *)
Inductive Recommendation : Type :=
  | NoMajorHazards
  | HazardsDetected (count : nat)
  | CriticalHazardsDetected (count : nat)
  | VerifyOfficialCharts
  | MonitorVHF.

Record RouteAnalysis : Type := mkRouteAnalysis {
  isSafe : bool;
  hazards : list RouteHazard;
  minDepth : option Js.Number;
  warnings : list Warning;
  recommendations : list Recommendation
}.

Definition hazardTypeName (t : HazardType) : string :=
  match t with
  | reef => "reef" | shallow_water => "shallow_water" | wreck => "wreck"
  | rock => "rock" | restricted_area => "restricted_area"
  | military_zone => "military_zone"
  | anchorage_prohibited => "anchorage_prohibited"
  | fishing_prohibited => "fishing_prohibited" | speed_limit => "speed_limit"
  | traffic_separation => "traffic_separation" | cable_area => "cable_area"
  | pipeline => "pipeline"
  end.

(** [hazard.description || hazard.type]: the empty string is falsy. *)
Definition describe (h : NauticalHazard) : string :=
  match description h with
  | Some d => if decide (d = "") then hazardTypeName (hz_type h) else d
  | None => hazardTypeName (hz_type h)
  end.

(** An element of the Overpass answer: [{type, id, lat?, lon?,
    geometry?, tags?}]. *)
Record Element : Type := mkElement {
  el_type : string;
  el_id : Z;
  el_lat : option R;
  el_lon : option R;
  geometry : option (list LatLon);
  el_tags : option (gmap string string)
}.

(** What [classifySeamark] returns. *)
Record Classification : Type := mkClassification {
  cl_type : HazardType;
  cl_severity : Severity;
  cl_radius : R;
  cl_description : string
}.

(** A tag value, or a coordinate, is truthy when it is present and is
    not the empty string, respectively not 0. *)
Definition truthy (v : option string) : bool :=
  match v with
  | Some s => bool_decide (s <> "")
  | None => false
  end.

Definition truthyNumber (v : option R) : bool :=
  match v with
  | Some r => bool_decide (r <> 0)
  | None => false
  end.

(** [v || d] on strings. *)
Definition or_string (v : option string) (d : string) : string :=
  if truthy v then default "" v else d.

(** The [classifications] object literal, read by its own keys. *)
Definition classifications (tags : gmap string string)
  : gmap string Classification :=
  list_to_map
    [ ("rock",
       mkClassification rock danger 50 "Submerged rock - Navigation hazard");
      ("reef",
       mkClassification reef danger 100 "Coral reef - Navigation hazard");
      ("wreck",
       mkClassification wreck
         (if decide (tags !! "seamark:wreck:category" = Some "dangerous")
          then danger else warning)
         100 "Shipwreck - Submerged or partially submerged");
      ("restricted_area",
       mkClassification restricted_area critical 500
         "Restricted area - Entry prohibited");
      ("military_area",
       mkClassification military_zone critical 1000
         "Military zone - Entry strictly prohibited");
      ("anchorage",
       mkClassification
         (if decide (tags !! "seamark:anchorage:category" = Some "prohibited")
          then anchorage_prohibited else anchorage_prohibited)
         warning 200 "Anchorage restricted or prohibited");
      ("separation_zone",
       mkClassification traffic_separation warning 200
         "Traffic separation zone - Follow designated lanes");
      ("cable_submarine",
       mkClassification cable_area warning 100
         "Submarine cable - Anchoring prohibited");
      ("pipeline_submarine",
       mkClassification pipeline warning 100
         "Submarine pipeline - Anchoring prohibited") ].

Definition classifySeamark (seamarkType : string) (tags : gmap string string)
  : Classification :=
  default (mkClassification restricted_area warning 100 "Marine hazard")
    (classifications tags !! seamarkType).

Section Parsing.

(** [parseFloat] on a tag value: a number, which is [NaN] when the text
    does not start with one; the grammar of numbers is outside the
    model. *)
Variable parseFloat : string -> Js.Number.

Definition parseDepth (tags : gmap string string) : option Js.Number :=
  if truthy (tags !! "seamark:depth") then
    Some (parseFloat (default "" (tags !! "seamark:depth")))
  else if decide (tags !! "seamark:rock:water_level" = Some "awash") then
    Some (Js.Finite 0)
  else if decide (tags !! "seamark:rock:water_level" = Some "covers") then
    Some (Js.Finite (-1))
  else None.

(** The body of the [forEach] of [parseSeamarkData]: the hazards that one
    element adds. *)
Definition parseElement (element : Element) : list NauticalHazard :=
  let tags := default ∅ (el_tags element) in
  if truthy (tags !! "seamark:type") then
    let seamarkType := default "" (tags !! "seamark:type") in
    let hazardInfo := classifySeamark seamarkType tags in
    let described :=
      or_string (tags !! "seamark:name")
        (or_string (tags !! "name") (cl_description hazardInfo)) in
    if bool_decide (el_type element = "node")
       && truthyNumber (el_lat element) && truthyNumber (el_lon element)
    then
      [ {| hz_id := "osm-" +:+ pretty (el_id element);
           hz_type := cl_type hazardInfo;
           hz_lat := default 0 (el_lat element);
           hz_lon := default 0 (el_lon element);
           radius := Some (cl_radius hazardInfo);
           polygon := None;
           depth := Some <$> parseDepth tags;
           description := Some described;
           severity := cl_severity hazardInfo;
           source := osm |} ]
    else
      match geometry element with
      | Some points =>
          if bool_decide (el_type element = "way") then
            let centerLat :=
              fold_left (fun sum p => sum + lat p) points 0 / INR (length points) in
            let centerLon :=
              fold_left (fun sum p => sum + lon p) points 0 / INR (length points) in
            [ {| hz_id := "osm-" +:+ pretty (el_id element);
                 hz_type := cl_type hazardInfo;
                 hz_lat := centerLat;
                 hz_lon := centerLon;
                 radius := None;
                 polygon := Some points;
                 depth := Some <$> parseDepth tags;
                 description := Some described;
                 severity := cl_severity hazardInfo;
                 source := osm |} ]
          else []
      | None => []
      end
  else [].

(** [data.elements] is [None] when the answer has no such field. *)
Definition parseSeamarkData (elements : option (list Element))
  : list NauticalHazard :=
  match elements with
  | None => []
  | Some es => flat_map parseElement es
  end.

End Parsing.

Record XY : Type := mkXY { x : R; y : R }.

Definition toMeters (lat lon : R) : XY :=
  {| x := lon * 111320 * cos (lat * PI / 180); y := lat * 111320 |}.

Definition distanceFromLineSegment (point lineStart lineEnd : LatLon) : R :=
  let p := toMeters (lat point) (lon point) in
  let a := toMeters (lat lineStart) (lon lineStart) in
  let b := toMeters (lat lineEnd) (lon lineEnd) in
  let dx := x b - x a in
  let dy := y b - y a in
  let lengthSquared := dx * dx + dy * dy in
  if decide (lengthSquared = 0) then
    let diffX := x p - x a in
    let diffY := y p - y a in
    sqrt (diffX * diffX + diffY * diffY)
  else
    let t := ((x p - x a) * dx + (y p - y a) * dy) / lengthSquared in
    let t := Rmax 0 (Rmin 1 t) in
    let closestX := x a + t * dx in
    let closestY := y a + t * dy in
    let distX := x p - closestX in
    let distY := y p - closestY in
    sqrt (distX * distX + distY * distY).

(** [Math.max(...xs)] and [Math.min(...xs)] of a non-empty array (of an
    empty one JavaScript gives an infinity, which the model lacks). *)
Definition maxOf (xs : list R) : R :=
  match xs with [] => 0 | v :: vs => fold_left Rmax vs v end.

Definition minOf (xs : list R) : R :=
  match xs with [] => 0 | v :: vs => fold_left Rmin vs v end.

Definition routeBoundingBox (wps : list LatLon) : BoundingBox :=
  let lats := map lat wps in
  let lons := map lon wps in
  {| north := maxOf lats + 0.1;
     south := minOf lats - 0.1;
     east := maxOf lons + 0.1;
     west := minOf lons - 0.1 |}.

(** The mutable locals of the double loop of [analyzeRouteHazards]. *)
Record Scan : Type := mkScan {
  routeHazards : list RouteHazard;
  scanWarnings : list Warning;
  scanMinDepth : option Js.Number
}.

Definition severityWarning (h : NauticalHazard) (distance : R) (i : nat)
  : list Warning :=
  match severity h with
  | critical => [CriticalWarning (Js.round distance) (describe h) (i + 1) (i + 2)]
  | danger => [DangerWarning (Js.round distance) (describe h) (i + 1) (i + 2)]
  | warning => [PlainWarning (describe h) (Js.round distance) (i + 1) (i + 2)]
  | info => []
  end.

(** The body of the inner loop, for leg [i] from [legStart] to [legEnd]. *)
Definition checkHazard (safetyMargin : R) (i : nat) (legStart legEnd : LatLon)
  (st : Scan) (h : NauticalHazard) : Scan :=
  let distance :=
    distanceFromLineSegment {| lat := hz_lat h; lon := hz_lon h |} legStart legEnd in
  let hazardBuffer := Js.or_default (radius h) 100 in
  let st :=
    if decide (distance < safetyMargin + hazardBuffer) then
      {| routeHazards :=
           routeHazards st ++
           [ {| hazard := h; distanceFromRoute := distance; waypointSegment := i |} ];
         scanWarnings := scanWarnings st ++ severityWarning h distance i;
         scanMinDepth := scanMinDepth st |}
    else st in
  match depth h with
  | Some d =>
      match scanMinDepth st with
      | None =>
          {| routeHazards := routeHazards st; scanWarnings := scanWarnings st;
             scanMinDepth := d |}
      | Some m =>
          if decide (Js.lt (Js.toNumber d) m) then
            {| routeHazards := routeHazards st; scanWarnings := scanWarnings st;
               scanMinDepth := d |}
          else st
      end
  | None => st
  end.

(** The body of the outer loop. *)
Definition checkLeg (safetyMargin : R) (wps : list LatLon)
  (fetched : list NauticalHazard) (i : nat) (st : Scan) : Scan :=
  match wps !! i, wps !! S i with
  | Some legStart, Some legEnd =>
      fold_left (checkHazard safetyMargin i legStart legEnd) fetched st
  | _, _ => st
  end.

Definition scanRoute (safetyMargin : R) (wps : list LatLon)
  (fetched : list NauticalHazard) : Scan :=
  Js.for_range (length wps - 1) (checkLeg safetyMargin wps fetched)
    {| routeHazards := []; scanWarnings := []; scanMinDepth := None |}.

Definition isCritical (rh : RouteHazard) : Prop :=
  severity (hazard rh) = critical.

#[global] Instance isCritical_decision rh : Decision (isCritical rh).
Proof. unfold isCritical. apply _. Defined.

(** Everything after [await fetchNauticalHazards(bbox)]. *)
Definition analyzeFetched (fetched : list NauticalHazard)
  (wps : list LatLon) (vesselDraft safetyMargin : R) : RouteAnalysis :=
  let st := scanRoute safetyMargin wps fetched in
  let minDepth := scanMinDepth st in
  let warnings :=
    match minDepth with
    | Some m =>
        if decide (Js.lt m (Js.Finite (vesselDraft + 1.0))) then
          scanWarnings st ++ [ShallowWaterWarning m vesselDraft]
        else scanWarnings st
    | None => scanWarnings st
    end in
  let recommendations :=
    (if decide (length (routeHazards st) = 0%nat) then [NoMajorHazards]
     else
       let criticalCount := length (filter isCritical (routeHazards st)) in
       HazardsDetected (length (routeHazards st)) ::
       (if decide (0 < criticalCount)%nat then [CriticalHazardsDetected criticalCount]
        else []))
    ++ [VerifyOfficialCharts; MonitorVHF] in
  let isSafe :=
    bool_decide (length (filter isCritical (routeHazards st)) = 0%nat) &&
    match minDepth with
    | None => true
    | Some m => bool_decide (Js.ge m (Js.Finite (vesselDraft + 1.0)))
    end in
  {| isSafe := isSafe;
     hazards := routeHazards st;
     minDepth := minDepth;
     warnings := warnings;
     recommendations := recommendations |}.

Section Analyze.

(** The hazard list that [fetchNauticalHazards] resolves to for a
    bounding box: the Overpass answer, or the cached snapshot, or []. *)
Variable fetchNauticalHazards : BoundingBox -> list NauticalHazard.

Definition analyzeRouteHazards
  (wps : list LatLon) (vesselDraft safetyMargin : R) : RouteAnalysis :=
  let bbox := routeBoundingBox wps in
  let fetched := fetchNauticalHazards bbox in
  analyzeFetched fetched wps vesselDraft safetyMargin.

End Analyze.

(** The default arguments of [analyzeRouteHazards] and
    [suggestHazardAvoidance]. *)
Definition defaultVesselDraft : R := 2.0.
Definition defaultSafetyMargin : R := 500.

Definition suggestHazardAvoidance (h : NauticalHazard)
  (legStart legEnd : LatLon) (safetyMargin : R) : option RoutePlanning.Place :=
  let hazardBuffer := Js.or_default (radius h) 100 + safetyMargin in
  let midLat := (lat legStart + lat legEnd) / 2 in
  let midLon := (lon legStart + lon legEnd) / 2 in
  let dx := lon legEnd - lon legStart in
  let dy := lat legEnd - lat legStart in
  let length := sqrt (dx * dx + dy * dy) in
  if decide (length = 0) then None
  else
    let perpX := - dy / length in
    let perpY := dx / length in
    let offsetDegrees := hazardBuffer / 111320 * 1.5 in
    Some {| RoutePlanning.place_lat := midLat + perpY * offsetDegrees;
            RoutePlanning.place_lon := midLon + perpX * offsetDegrees;
            RoutePlanning.place_name := "Avoid " +:+ hazardTypeName (hz_type h) |}.

Definition requiresRerouting (analysis : RouteAnalysis) : bool :=
  negb (isSafe analysis) ||
  existsb (fun rh => bool_decide (isCritical rh)) (hazards analysis) ||
  match minDepth analysis with
  | Some m => bool_decide (Js.lt m (Js.Finite 1.0))
  | None => false
  end.

(** A hazard after [JSON.stringify] and [JSON.parse]: a depth that is
    [NaN] or infinite comes back as [null]; the other fields come back
    as they were. *)
Definition hazardThroughJSON (h : NauticalHazard) : NauticalHazard :=
  {| hz_id := hz_id h; hz_type := hz_type h; hz_lat := hz_lat h;
     hz_lon := hz_lon h; radius := radius h; polygon := polygon h;
     depth :=
       match depth h with
       | Some (Some n) => Some (Js.throughJSON n)
       | d => d
       end;
     description := description h; severity := severity h;
     source := source h |}.

(** A value of [localStorage] under a [nautical-...] key, read through
    [JSON.parse]: a snapshot, or a text that does not parse to one. *)
Inductive Cached : Type :=
  | Unreadable
  | Snapshot (timestamp : Z) (bbox : BoundingBox) (hazards : list NauticalHazard).

Definition cacheKey (bbox : BoundingBox) : string :=
  "nautical-" +:+ Js.toFixed 2 (south bbox) +:+ "-" +:+ Js.toFixed 2 (west bbox).

(** [now] is the clock in milliseconds; storing is taken to succeed. *)
Definition cacheNauticalData (now : Z) (bbox : BoundingBox)
  (hazards : list NauticalHazard) (store : gmap string Cached)
  : gmap string Cached :=
  <[cacheKey bbox := Snapshot now bbox (hazardThroughJSON <$> hazards)]> store.

Definition getCachedNauticalData (now : Z) (bbox : BoundingBox)
  (store : gmap string Cached) : option (list NauticalHazard) :=
  match store !! cacheKey bbox with
  | None => None
  | Some Unreadable => None
  | Some (Snapshot timestamp _ hazards) =>
      let cacheAge := (now - timestamp)%Z in
      if decide (cacheAge < 7 * 24 * 60 * 60 * 1000)%Z then Some hazards
      else None
  end.

(** What the request to the Overpass service comes to: an answer with
    its [elements] field, or anything that lands in the [catch] (network
    error, a status that is not ok, a body that is not JSON). *)
Inductive Response : Type :=
  | Failed
  | Answered (elements : option (list Element)).

(** [fetchNauticalHazards], with the cache before and after. *)
Definition fetchNauticalHazards (parseFloat : string -> Js.Number)
  (response : Response) (now : Z) (boundingBox : BoundingBox)
  (store : gmap string Cached)
  : list NauticalHazard * gmap string Cached :=
  match response with
  | Answered elements =>
      let hazards := parseSeamarkData parseFloat elements in
      (hazards, cacheNauticalData now boundingBox hazards store)
  | Failed =>
      (default [] (getCachedNauticalData now boundingBox store), store)
  end.

End NauticalChart.

(** ** offlineNavigation: the [OfflineNavigationSystem] controller *)

Module OfflineNavigation.

Import RoutePlanning.

Inductive AlertType : Type :=
  | waypoint_approaching | waypoint_reached | off_course
  | destination_reached | low_speed | course_correction
  | gps_error | permission_denied.

Inductive AlertSeverity : Type := info | warning | success | error.

(** The alert messages: fixed texts, and templates with their holes. *)
Inductive Message : Type :=
  | Text (s : string)
  | ApproachingMsg (name : string) (distanceNM : R)
  | WaypointReachedMsg (name : string)
  | DestinationReachedMsg (name : string)
  | OffCourseMsg (turn : string) (roundedBearing : Z).

Record NavigationAlert : Type := mkAlert {
  alert_type : AlertType;
  message : Message;
  alert_severity : AlertSeverity;
  alert_timestamp : Z;
  autoClose : option bool
}.

Record OfflineNavigationConfig : Type := mkConfig {
  updateIntervalMs : R;
  waypointThresholdNM : R;
  enableVoiceAlerts : bool;
  enableVibration : bool;
  speedSmoothingFactor : R
}.

(** The constructor's defaults. *)
Definition defaultConfig : OfflineNavigationConfig :=
  {| updateIntervalMs := 1000;
     waypointThresholdNM := 0.1;
     enableVoiceAlerts := true;
     enableVibration := true;
     speedSmoothingFactor := 0.3 |}.

Record HistoryEntry : Type := mkHistoryEntry {
  hist_lat : R;
  hist_lon : R;
  hist_timestamp : Z;
  hist_speed : R
}.

Record CachedPosition : Type := mkCachedPosition {
  cached_lat : R;
  cached_lon : R;
  cached_timestamp : Z;
  cached_speed : R;
  cached_heading : R
}.

(** [GeolocationPosition.coords]: [speed] and [heading] may be [null]. *)
Record Coords : Type := mkCoords {
  latitude : R;
  longitude : R;
  coords_speed : option R;
  coords_heading : option R
}.

Inductive PositionErrorCode : Type :=
  | PERMISSION_DENIED | POSITION_UNAVAILABLE | TIMEOUT | OTHER_ERROR.

(** A registered callback is opaque: it is known by a number. *)
Definition Callback : Type := nat.

(** The data passed to [emit]. *)
Inductive Payload : Type :=
  | NavigationStarted (route : Route)
  | NavigationStopped
  | NavigationPaused
  | NavigationResumed
  | WaypointSkipped (wp : option Waypoint)
  | NavigationUpdate (navState : NavigationState)
  | HeadingUpdate (heading : R)
  | WaypointReached (wp : Waypoint) (index : nat)
  | DestinationReached (destination : Waypoint)
  | Alert (alert : NavigationAlert).

(** What the controller does to the outside, in order.  [Emit] records a
    call of [emit(event, data)] and the callback it reached, if one is
    registered for [event]; a callback is taken not to call back into the
    controller.  Console texts are kept without their emoji prefix. *)
Inductive Effect : Type :=
  | Emit (event : string) (data : Payload) (reached : option Callback)
  | Vibrate (pattern : list Z)
  | Speak (text : string)
  | ConsoleLog (text : string)
  | ConsoleWarn (text : string)
  | DeadReckoningLog (distanceNM : R).

(** The private fields of the class. *)
Record Nav : Type := mkNav {
  watchId : option nat;
  route : option Route;
  currentWaypointIndex : nat;
  isNavigating : bool;
  config : OfflineNavigationConfig;
  listeners : gmap string Callback;
  navigationHistory : list HistoryEntry;
  currentHeading : R;
  currentSpeed : R;
  smoothedSpeeds : list R
}.

(** A function given to [addEventListener]: the class field
    [handleOrientation] itself, or a fresh result of [.bind(this)]. *)
Inductive OrientationListener : Type :=
  | FieldHandler
  | BoundHandler (n : nat).

#[global] Instance OrientationListener_eq_decision : EqDecision OrientationListener.
Proof. solve_decision. Defined.

(** What [DeviceOrientationEvent.requestPermission] does, where it
    exists (iOS 13+). *)
Inductive PermissionOutcome : Type :=
  | not_required | granted | denied | request_failed.

(** The part of the browser the controller talks to. *)
Record Browser : Type := mkBrowser {
  hasGeolocation : bool;
  hasDeviceOrientationEvent : bool;
  orientationPermission : PermissionOutcome;
  hasVibrate : bool;
  hasSpeechSynthesis : bool;
  activeWatches : gset nat;
  nextWatchId : nat;
  orientationListeners : list (OrientationListener * bool);
  nextBound : nat;
  storedActiveRoute : option Route;
  storedNavigationStartTime : option Z;
  storedNavigationPositions : list CachedPosition
}.

Record World : Type := mkWorld {
  self : Nav;
  browser : Browser;
  trace : list Effect
}.

(** *** Field updates *)

Definition set_watchId (v : option nat) (n : Nav) : Nav :=
  mkNav v (route n) (currentWaypointIndex n) (isNavigating n) (config n)
    (listeners n) (navigationHistory n) (currentHeading n) (currentSpeed n)
    (smoothedSpeeds n).

Definition set_route (v : option Route) (n : Nav) : Nav :=
  mkNav (watchId n) v (currentWaypointIndex n) (isNavigating n) (config n)
    (listeners n) (navigationHistory n) (currentHeading n) (currentSpeed n)
    (smoothedSpeeds n).

Definition set_currentWaypointIndex (v : nat) (n : Nav) : Nav :=
  mkNav (watchId n) (route n) v (isNavigating n) (config n)
    (listeners n) (navigationHistory n) (currentHeading n) (currentSpeed n)
    (smoothedSpeeds n).

Definition set_isNavigating (v : bool) (n : Nav) : Nav :=
  mkNav (watchId n) (route n) (currentWaypointIndex n) v (config n)
    (listeners n) (navigationHistory n) (currentHeading n) (currentSpeed n)
    (smoothedSpeeds n).

Definition set_listeners (v : gmap string Callback) (n : Nav) : Nav :=
  mkNav (watchId n) (route n) (currentWaypointIndex n) (isNavigating n) (config n)
    v (navigationHistory n) (currentHeading n) (currentSpeed n)
    (smoothedSpeeds n).

Definition set_navigationHistory (v : list HistoryEntry) (n : Nav) : Nav :=
  mkNav (watchId n) (route n) (currentWaypointIndex n) (isNavigating n) (config n)
    (listeners n) v (currentHeading n) (currentSpeed n) (smoothedSpeeds n).

Definition set_currentHeading (v : R) (n : Nav) : Nav :=
  mkNav (watchId n) (route n) (currentWaypointIndex n) (isNavigating n) (config n)
    (listeners n) (navigationHistory n) v (currentSpeed n) (smoothedSpeeds n).

Definition set_currentSpeed (v : R) (n : Nav) : Nav :=
  mkNav (watchId n) (route n) (currentWaypointIndex n) (isNavigating n) (config n)
    (listeners n) (navigationHistory n) (currentHeading n) v (smoothedSpeeds n).

Definition set_smoothedSpeeds (v : list R) (n : Nav) : Nav :=
  mkNav (watchId n) (route n) (currentWaypointIndex n) (isNavigating n) (config n)
    (listeners n) (navigationHistory n) (currentHeading n) (currentSpeed n) v.

Definition set_watches (ws : gset nat) (next : nat) (b : Browser) : Browser :=
  mkBrowser (hasGeolocation b) (hasDeviceOrientationEvent b)
    (orientationPermission b) (hasVibrate b) (hasSpeechSynthesis b)
    ws next (orientationListeners b) (nextBound b)
    (storedActiveRoute b) (storedNavigationStartTime b)
    (storedNavigationPositions b).

Definition set_orientationListeners
  (ls : list (OrientationListener * bool)) (next : nat) (b : Browser) : Browser :=
  mkBrowser (hasGeolocation b) (hasDeviceOrientationEvent b)
    (orientationPermission b) (hasVibrate b) (hasSpeechSynthesis b)
    (activeWatches b) (nextWatchId b) ls next
    (storedActiveRoute b) (storedNavigationStartTime b)
    (storedNavigationPositions b).

Definition set_storedRoute (r : option Route) (t : option Z) (b : Browser) : Browser :=
  mkBrowser (hasGeolocation b) (hasDeviceOrientationEvent b)
    (orientationPermission b) (hasVibrate b) (hasSpeechSynthesis b)
    (activeWatches b) (nextWatchId b) (orientationListeners b) (nextBound b)
    r t (storedNavigationPositions b).

Definition set_storedPositions (ps : list CachedPosition) (b : Browser) : Browser :=
  mkBrowser (hasGeolocation b) (hasDeviceOrientationEvent b)
    (orientationPermission b) (hasVibrate b) (hasSpeechSynthesis b)
    (activeWatches b) (nextWatchId b) (orientationListeners b) (nextBound b)
    (storedActiveRoute b) (storedNavigationStartTime b) ps.

(** *** A state monad over the world *)

Definition M (A : Type) : Type := World -> A * World.

Definition ret {A : Type} (a : A) : M A := fun w => (a, w).

Definition bind {A B : Type} (c : M A) (k : A -> M B) : M B :=
  fun w => let (a, w') := c w in k a w'.

Notation "'do' x <- c1 ; c2" := (bind c1 (fun x => c2))
  (at level 10, x name, c1 at level 100, c2 at level 200).
Notation "c1 >> c2" := (bind c1 (fun _ => c2))
  (at level 100, c2 at level 200, right associativity).

Definition this : M Nav := fun w => (self w, w).
Definition window : M Browser := fun w => (browser w, w).

Definition update (f : Nav -> Nav) : M unit :=
  fun w => (tt, mkWorld (f (self w)) (browser w) (trace w)).

Definition updateBrowser (f : Browser -> Browser) : M unit :=
  fun w => (tt, mkWorld (self w) (f (browser w)) (trace w)).

Definition perform (e : Effect) : M unit :=
  fun w => (tt, mkWorld (self w) (browser w) (trace w ++ [e])).

Definition when (b : bool) (c : M unit) : M unit := if b then c else ret tt.

(** The world after running [c], and the effects [c] added. *)
Definition exec {A : Type} (c : M A) (w : World) : World := snd (c w).

(** *** Events *)

Definition emit (event : string) (data : Payload) : M unit :=
  do n <- this;
  perform (Emit event data (listeners n !! event)).

Definition emitAlert (alert : NavigationAlert) : M unit :=
  emit "alert" (Alert alert).

Definition on (event : string) (callback : Callback) : M unit :=
  update (fun n => set_listeners (<[event := callback]> (listeners n)) n).

Definition off (event : string) : M unit :=
  update (fun n => set_listeners (delete event (listeners n)) n).

(** *** Browser calls *)

(** [navigator.geolocation.watchPosition]: a fresh, active watch id. *)
Definition watchPosition : M nat :=
  do b <- window;
  let id := nextWatchId b in
  updateBrowser (set_watches ({[ id ]} ∪ activeWatches b) (S id)) >>
  ret id.

Definition clearWatch (id : nat) : M unit :=
  updateBrowser (fun b => set_watches (activeWatches b ∖ {[ id ]}) (nextWatchId b) b).

(** [window.addEventListener('deviceorientation', l, capture)]: an
    identical (listener, capture) pair is registered once. *)
Definition addOrientationListener (l : OrientationListener) (capture : bool) : M unit :=
  updateBrowser (fun b =>
    if decide ((l, capture) ∈ orientationListeners b) then b
    else set_orientationListeners (orientationListeners b ++ [(l, capture)]) (nextBound b) b).

Definition removeOrientationListener (l : OrientationListener) (capture : bool) : M unit :=
  updateBrowser (fun b =>
    set_orientationListeners
      (filter (fun e => e <> (l, capture)) (orientationListeners b)) (nextBound b) b).

(** [this.handleOrientation.bind(this)]: a function never seen before. *)
Definition bindHandleOrientation : M OrientationListener :=
  do b <- window;
  updateBrowser (set_orientationListeners (orientationListeners b) (S (nextBound b))) >>
  ret (BoundHandler (nextBound b)).

(** *** The methods *)

Definition stopNavigation : M unit :=
  do n <- this;
  match watchId n with
  | Some id => clearWatch id >> update (set_watchId None)
  | None => ret tt
  end >>
  do b <- window;
  when (hasDeviceOrientationEvent b) (removeOrientationListener FieldHandler false) >>
  update (set_isNavigating false) >>
  update (set_route None) >>
  update (set_currentWaypointIndex 0) >>
  emit "navigationStopped" NavigationStopped >>
  perform (ConsoleLog "Navigation Stopped").

Definition pauseNavigation : M unit :=
  update (set_isNavigating false) >>
  emit "navigationPaused" NavigationPaused.

Definition resumeNavigation : M unit :=
  do n <- this;
  match route n with
  | Some _ =>
      update (set_isNavigating true) >>
      emit "navigationResumed" NavigationResumed
  | None => ret tt
  end.

Definition skipToNextWaypoint : M unit :=
  do n <- this;
  match route n with
  | Some r =>
      if decide (currentWaypointIndex n < length (waypoints r) - 2)%nat then
        update (set_currentWaypointIndex (S (currentWaypointIndex n))) >>
        emit "waypointSkipped"
          (WaypointSkipped (waypoints r !! S (currentWaypointIndex n)))
      else ret tt
  | None => ret tt
  end.

(** [requestPermissions]: [false] stands for the thrown
    ['Geolocation not supported']. *)
Definition requestPermissions : M bool :=
  do b <- window;
  if hasGeolocation b then
    match orientationPermission b with
    | denied => perform (ConsoleWarn "Compass permission denied") >> ret true
    | request_failed =>
        perform (ConsoleWarn "Failed to request compass permission:") >> ret true
    | _ => ret true
    end
  else ret false.

Definition startGPSTracking (now : Z) : M unit :=
  do b <- window;
  if hasGeolocation b then
    do id <- watchPosition;
    update (set_watchId (Some id))
  else
    emitAlert {| alert_type := gps_error; message := Text "GPS not available";
                 alert_severity := warning; alert_timestamp := now;
                 autoClose := None |}.

Definition startCompassTracking : M unit :=
  do b <- window;
  if hasDeviceOrientationEvent b then
    do l <- bindHandleOrientation;
    addOrientationListener l true
  else ret tt.

Definition cacheRouteData (r : Route) (now : Z) : M unit :=
  updateBrowser (set_storedRoute (Some r) (Some now)).

(** [startNavigation] up to its resolution, taken as one step (no other
    callback runs while it awaits the permissions); the result is [false]
    when the promise rejects in [requestPermissions]. *)
Definition startNavigation (r : Route) (now : Z) : M bool :=
  do n <- this;
  when (isNavigating n) stopNavigation >>
  update (set_route (Some r)) >>
  update (set_currentWaypointIndex 0) >>
  update (set_isNavigating true) >>
  update (set_navigationHistory []) >>
  do granted <- requestPermissions;
  if granted then
    startGPSTracking now >>
    startCompassTracking >>
    emit "navigationStarted" (NavigationStarted r) >>
    cacheRouteData r now >>
    perform (ConsoleLog ("Offline Navigation Started: " +:+ route_name r)) >>
    ret true
  else ret false.

Definition smoothSpeed (newSpeed : R) : M R :=
  do n <- this;
  let pushed := smoothedSpeeds n ++ [newSpeed] in
  let kept := if decide (5 < length pushed)%nat then drop 1 pushed else pushed in
  update (set_smoothedSpeeds kept) >>
  let sum := fold_left Rplus kept 0 in
  ret (sum / INR (length kept)).

Definition cachePosition (p : CachedPosition) : M unit :=
  updateBrowser (fun b =>
    let cachedPositions := storedNavigationPositions b ++ [p] in
    set_storedPositions
      (if decide (100 < length cachedPositions)%nat then drop 1 cachedPositions
       else cachedPositions) b).

Definition handleDestinationReached (now : Z) : M unit :=
  do n <- this;
  match route n with
  | None => ret tt
  | Some r =>
      match last (waypoints r) with
      | None => ret tt
      | Some dest =>
          do b <- window;
          when (enableVibration (config n) && hasVibrate b)
            (perform (Vibrate [300; 100; 300; 100; 300]%Z)) >>
          when (enableVoiceAlerts (config n) && hasSpeechSynthesis b)
            (perform (Speak ("Destination reached: " +:+ wp_name dest))) >>
          emitAlert {| alert_type := destination_reached;
                       message := DestinationReachedMsg (wp_name dest);
                       alert_severity := success; alert_timestamp := now;
                       autoClose := None |} >>
          emit "destinationReached" (DestinationReached dest) >>
          stopNavigation
      end
  end.

Definition handleWaypointReached (wp : Waypoint) (now : Z) : M unit :=
  do n <- this;
  do b <- window;
  when (enableVibration (config n) && hasVibrate b)
    (perform (Vibrate [200; 100; 200]%Z)) >>
  when (enableVoiceAlerts (config n) && hasSpeechSynthesis b)
    (perform (Speak ("Waypoint reached: " +:+ wp_name wp))) >>
  update (set_currentWaypointIndex (S (currentWaypointIndex n))) >>
  do n <- this;
  match route n with
  | Some r =>
      if decide (length (waypoints r) - 1 <= currentWaypointIndex n)%nat then
        handleDestinationReached now
      else
        emitAlert {| alert_type := waypoint_reached;
                     message := WaypointReachedMsg (wp_name wp);
                     alert_severity := success; alert_timestamp := now;
                     autoClose := None |} >>
        emit "waypointReached" (WaypointReached wp (currentWaypointIndex n))
  | None =>
      emitAlert {| alert_type := waypoint_reached;
                   message := WaypointReachedMsg (wp_name wp);
                   alert_severity := success; alert_timestamp := now;
                   autoClose := None |} >>
      emit "waypointReached" (WaypointReached wp (currentWaypointIndex n))
  end.

Definition checkWaypointProximity
  (lat lon : R) (navState : NavigationState) (now : Z) : M unit :=
  match nextWaypoint navState with
  | None => ret tt
  | Some next =>
      do n <- this;
      when (bool_decide (distanceToNext navState < 0.5) &&
            bool_decide (distanceToNext navState > waypointThresholdNM (config n)))
        (emitAlert {| alert_type := waypoint_approaching;
                      message := ApproachingMsg (wp_name next) (distanceToNext navState);
                      alert_severity := info; alert_timestamp := now;
                      autoClose := Some true |}) >>
      when (isNearWaypoint lat lon (wp_lat next) (wp_lon next)
              (waypointThresholdNM (config n)))
        (handleWaypointReached next now)
  end.

Definition checkCourseDeviation (navState : NavigationState) (now : Z) : M unit :=
  match nextWaypoint navState with
  | None => ret tt
  | Some _ =>
      let headingDifference := Rabs (bearingToNext navState - heading navState) in
      let normalizedDiff := Rmin headingDifference (360 - headingDifference) in
      when (bool_decide (normalizedDiff > 45))
        (emitAlert {| alert_type := course_correction;
                      message :=
                        OffCourseMsg
                          (if decide (normalizedDiff > 180) then "left" else "right")
                          (Js.round (bearingToNext navState));
                      alert_severity := warning; alert_timestamp := now;
                      autoClose := Some true |}) >>
      when (bool_decide (speed navState < 0.5))
        (emitAlert {| alert_type := low_speed;
                      message := Text "Very low speed detected";
                      alert_severity := info; alert_timestamp := now;
                      autoClose := Some true |})
  end.

Definition handlePositionUpdate (coords : Coords) (now : Z) : M unit :=
  do n <- this;
  match route n with
  | None => ret tt
  | Some r =>
      if negb (isNavigating n) then ret tt
      else
        match coords_heading coords with
        | Some h => update (set_currentHeading h)
        | None => ret tt
        end >>
        let speedKnots :=
          match coords_speed coords with
          | Some s => if decide (s = 0) then 0 else s * 1.94384
          | None => 0
          end in
        do smoothed <- smoothSpeed speedKnots;
        update (set_currentSpeed smoothed) >>
        do n <- this;
        let pushed :=
          navigationHistory n ++
          [ {| hist_lat := latitude coords; hist_lon := longitude coords;
               hist_timestamp := now; hist_speed := currentSpeed n |} ] in
        update (set_navigationHistory
                  (if decide (100 < length pushed)%nat then drop 1 pushed else pushed)) >>
        let navState :=
          calculateNavigationState
            {| pos_lat := latitude coords; pos_lon := longitude coords;
               pos_heading := currentHeading n; pos_speed := currentSpeed n |}
            r (currentWaypointIndex n) in
        emit "navigationUpdate" (NavigationUpdate navState) >>
        checkWaypointProximity (latitude coords) (longitude coords) navState now >>
        checkCourseDeviation navState now >>
        do n <- this;
        cachePosition
          {| cached_lat := latitude coords; cached_lon := longitude coords;
             cached_timestamp := now; cached_speed := currentSpeed n;
             cached_heading := currentHeading n |}
  end.

Definition useDeadReckoning : M unit :=
  do n <- this;
  let h := navigationHistory n in
  if decide (length h < 2)%nat then ret tt
  else
    match last h, h !! (length h - 2)%nat with
    | Some lastPosition, Some prevPosition =>
        let timeDiff :=
          IZR (hist_timestamp lastPosition - hist_timestamp prevPosition)
          / 1000 / 3600 in
        let distanceNM := hist_speed lastPosition * timeDiff in
        perform (DeadReckoningLog distanceNM)
    | _, _ => ret tt
    end.

Definition handlePositionError (code : PositionErrorCode) (now : Z) : M unit :=
  let msg :=
    match code with
    | PERMISSION_DENIED => "GPS permission denied. Please enable location services."
    | POSITION_UNAVAILABLE => "GPS position unavailable. Using last known position."
    | TIMEOUT => "GPS timeout. Retrying..."
    | OTHER_ERROR => "GPS error occurred"
    end in
  emitAlert {| alert_type := gps_error; message := Text msg;
               alert_severity := warning; alert_timestamp := now;
               autoClose := None |} >>
  do n <- this;
  when (bool_decide (0 < length (navigationHistory n))%nat) useDeadReckoning.

(** [alpha] is [null] when the device gives no compass reading. *)
Definition handleOrientation (alpha : option R) : M unit :=
  match alpha with
  | Some a =>
      update (set_currentHeading a) >>
      emit "headingUpdate" (HeadingUpdate a)
  | None => ret tt
  end.



Definition getNavigationHistory : M (list HistoryEntry) :=
  do n <- this;
  ret (navigationHistory n).

(** *** The browser calling back *)

(** The geolocation service hands a fix to the success callback of each
    watch that is still active when its turn comes; every watch of the
    controller was registered with [handlePositionUpdate]. *)
Fixpoint forEachWatch (ids : list nat) (callback : M unit) : M unit :=
  match ids with
  | [] => ret tt
  | id :: rest =>
      do b <- window;
      when (bool_decide (id ∈ activeWatches b)) callback >>
      forEachWatch rest callback
  end.

Definition deliverPosition (coords : Coords) (now : Z) : M unit :=
  do b <- window;
  forEachWatch (elements (activeWatches b)) (handlePositionUpdate coords now).

(** The browser hands a compass reading to every listener registered
    for [deviceorientation], in the order of registration; each of them
    runs [handleOrientation] on the controller. *)
Fixpoint forEachListener (ls : list (OrientationListener * bool))
  (callback : M unit) : M unit :=
  match ls with
  | [] => ret tt
  | _ :: rest => callback >> forEachListener rest callback
  end.

Definition deliverOrientation (alpha : option R) : M unit :=
  do b <- window;
  forEachListener (orientationListeners b) (handleOrientation alpha).

(** A fresh instance: [new OfflineNavigationSystem()]. *)
Definition newSystem : Nav :=
  {| watchId := None; route := None; currentWaypointIndex := 0;
     isNavigating := false; config := defaultConfig; listeners := ∅;
     navigationHistory := []; currentHeading := 0; currentSpeed := 0;
     smoothedSpeeds := [] |}.

End OfflineNavigation.

(** ** RoutePlanningView: the handlers that drive the services *)

Module RoutePlanningView.

Import RoutePlanning NauticalChart.

(** A waypoint read as the [{lat, lon}] that the chart service takes. *)
Definition position (w : Waypoint) : LatLon :=
  {| lat := wp_lat w; lon := wp_lon w |}.





End RoutePlanningView.

(** ** Vocabulary of the specification

    The notions below are not part of the program: they are the words in
    which the properties of the next part are stated, and the concrete
    inputs at which they are exercised. *)

Module RouteSpec.

Import RoutePlanning.

(** The distances of the consecutive pairs of a waypoint sequence. *)
Fixpoint consecutiveDistances (ws : list Waypoint) : list R :=
  match ws with
  | a :: (b :: _) as rest =>
      calculateDistance (wp_lat a) (wp_lon a) (wp_lat b) (wp_lon b)
      :: consecutiveDistances rest
  | _ => []
  end.

Definition sumR (xs : list R) : R := fold_right Rplus 0 xs.

Definition firstType (ws : list Waypoint) : option WaypointType :=
  wp_type <$> head ws.

Definition lastType (ws : list Waypoint) : option WaypointType :=
  wp_type <$> last ws.

(** Where [addWaypoint] puts the new node in the waypoint array. *)
Definition insertPosition (r : Route) (insertIndex : option Z) : nat :=
  match insertIndex with
  | Some i => spliceStart (waypoints r) i
  | None => (length (waypoints r) - 1)%nat
  end.

(** The property of [addWaypoint] for one route and one [insertIndex]:
    the ends keep their types and the aggregates are recomputed. *)
Definition endsAndTotalsKept
  (freshId : string) (r : Route) (p : Place) (insertIndex : option Z) : Prop :=
  firstType (waypoints r) = Some start ->
  lastType (waypoints r) = Some destination ->
  let r' := addWaypoint freshId r p insertIndex in
  firstType (waypoints r') = Some start /\
  lastType (waypoints r') = Some destination /\
  totalDistance r' = sumR (consecutiveDistances (waypoints r')) /\
  estimatedTime r' = totalDistance r' / averageSpeed r.

(** A two-waypoint route along the equator, from (0,0) to (0,1). *)
Definition exampleRoute : Route :=
  generateRoute "route-1" 0 (mkPlace 0 0 "A") (mkPlace 0 1 "B") 5.

Definition examplePosition : Position := mkPosition 0 0.5 90 5.

(** A route from (0,0) to a destination due west of it, (0,-1). *)
Definition westRoute : Route :=
  generateRoute "route-2" 0 (mkPlace 0 0 "A") (mkPlace 0 (-1) "W") 5.

End RouteSpec.

Module HazardSpec.

Import NauticalChart.



(** Every depth that a hazard of [hs] defines is a number: none is the
    [null] of a snapshot. *)
Definition numericDepths (hs : list NauticalHazard) : Prop :=
  forall h, h ∈ hs -> depth h <> Some None.







(** The leg (0,0)-(0,1) and a critical hazard on its middle. *)
Definition exampleLeg : list LatLon := [mkLatLon 0 0; mkLatLon 0 1].

Definition midLegHazard : NauticalHazard :=
  {| hz_id := "osm-1"; hz_type := restricted_area; hz_lat := 0; hz_lon := 0.5;
     radius := Some 100; polygon := None; depth := None; description := None;
     severity := critical; source := osm |}.



End HazardSpec.

Module NavigationSpec.

Import RoutePlanning OfflineNavigation.

(** The haptic and spoken feedback of a reached waypoint or destination. *)
Definition feedback (n : Nav) (b : Browser) (pattern : list Z) (text : string)
  : list Effect :=
  (if enableVibration (config n) && hasVibrate b then [Vibrate pattern] else []) ++
  (if enableVoiceAlerts (config n) && hasSpeechSynthesis b then [Speak text] else []).

Definition destinationAlert (dest : Waypoint) (now : Z) : NavigationAlert :=
  {| alert_type := destination_reached;
     message := DestinationReachedMsg (wp_name dest);
     alert_severity := success; alert_timestamp := now; autoClose := None |}.

Definition courseAlert (turn : string) (ns : NavigationState) (now : Z)
  : NavigationAlert :=
  {| alert_type := course_correction;
     message := OffCourseMsg turn (Js.round (bearingToNext ns));
     alert_severity := warning; alert_timestamp := now; autoClose := Some true |}.

Definition lowSpeedAlert (now : Z) : NavigationAlert :=
  {| alert_type := low_speed; message := Text "Very low speed detected";
     alert_severity := info; alert_timestamp := now; autoClose := Some true |}.

(** The heading/bearing difference as [checkCourseDeviation] normalises it. *)
Definition normalizedDiff (ns : NavigationState) : R :=
  Rmin (Rabs (bearingToNext ns - heading ns))
       (360 - Rabs (bearingToNext ns - heading ns)).

(** A browser with a GPS and nothing else, and a fresh controller in it. *)
Definition gpsOnlyBrowser : Browser :=
  {| hasGeolocation := true; hasDeviceOrientationEvent := false;
     orientationPermission := not_required; hasVibrate := false;
     hasSpeechSynthesis := false; activeWatches := ∅; nextWatchId := 1;
     orientationListeners := []; nextBound := 0; storedActiveRoute := None;
     storedNavigationStartTime := None; storedNavigationPositions := [] |}.

Definition freshWorld : World :=
  {| self := newSystem; browser := gpsOnlyBrowser; trace := [] |}.

(** The world after [startNavigation] on [RouteSpec.exampleRoute]. *)
Definition startedWorld : World :=
  exec (startNavigation RouteSpec.exampleRoute 1) freshWorld.

(** A fix on the destination of [RouteSpec.exampleRoute]. *)
Definition fixAtDestination : Coords :=
  {| latitude := 0; longitude := 1; coords_speed := Some 2; coords_heading := Some 90 |}.

(** At the start of [RouteSpec.westRoute], making 5 knots on heading 50:
    the next waypoint bears 270, which is 140 degrees to the left, and
    the signed difference bearing - heading is 220. *)
Definition offCourseState : NavigationState :=
  calculateNavigationState (mkPosition 0 0 50 5) RouteSpec.westRoute 0.

End NavigationSpec.

(** ** Vocabulary of the further properties *)

Module ChartSpec.

Import NauticalChart.

(** Distance in the plane of [toMeters]. *)
Definition planarDistance (p q : XY) : R :=
  sqrt ((x p - x q) * (x p - x q) + (y p - y q) * (y p - y q)).

(** The point of the leg from [a] to [b] at fraction [s] of the way. *)
Definition pointOnLeg (a b : XY) (s : R) : XY :=
  {| x := x a + s * (x b - x a); y := y a + s * (y b - y a) |}.

Definition projected (p : LatLon) : XY := toMeters (lat p) (lon p).



(** No hazard of the list has a depth that is [NaN] or infinite: these
    are the depths that JSON cannot write. *)
Definition finiteDepths (hs : list NauticalHazard) : Prop :=
  forall h n, h ∈ hs -> depth h = Some (Some n) -> exists r, n = Js.Finite r.

(** The bounding box of the example leg, and one that differs from it in
    its north and east sides only. *)
Definition exampleBox : BoundingBox := routeBoundingBox HazardSpec.exampleLeg.

Definition widerBox : BoundingBox :=
  {| north := north exampleBox + 1; south := south exampleBox;
     east := east exampleBox + 1; west := west exampleBox |}.

(** An Overpass node that marks a rock at (1, 2). *)
Definition rockNode : Element :=
  {| el_type := "node"; el_id := 7; el_lat := Some 1; el_lon := Some 2;
     geometry := None; el_tags := Some {[ "seamark:type" := "rock" ]} |}.

End ChartSpec.

Module ViewSpec.

Import RoutePlanning NauticalChart RoutePlanningView RouteSpec.




End ViewSpec.

Module ControllerSpec.

Import RoutePlanning OfflineNavigation NavigationSpec.

(** [c] called [k] times in a row. *)
Fixpoint times (k : nat) (c : M unit) : M unit :=
  match k with
  | O => ret tt
  | S k => c >> times k c
  end.

(** The three bounded buffers: the speed window, the navigation history
    and the positions kept in [localStorage]. *)
Definition buffersBounded (w : World) : Prop :=
  (length (smoothedSpeeds (self w)) <= 5)%nat /\
  (length (navigationHistory (self w)) <= 100)%nat /\
  (length (storedNavigationPositions (browser w)) <= 100)%nat.

(** [xs.push(x); if (xs.length > limit) xs.shift()], from the array
    after the push. *)
Definition capped {A : Type} (limit : nat) (pushed : list A) : list A :=
  if decide (limit < length pushed)%nat then drop 1 pushed else pushed.

Definition buffers (w : World)
  : list R * list HistoryEntry * list CachedPosition :=
  (smoothedSpeeds (self w), navigationHistory (self w),
   storedNavigationPositions (browser w)).

Definition gpsErrorAlert (text : string) (now : Z) : NavigationAlert :=
  {| alert_type := gps_error; message := Text text;
     alert_severity := warning; alert_timestamp := now; autoClose := None |}.

Definition approachingAlert (next : Waypoint) (distance : R) (now : Z)
  : NavigationAlert :=
  {| alert_type := waypoint_approaching;
     message := ApproachingMsg (wp_name next) distance;
     alert_severity := info; alert_timestamp := now; autoClose := Some true |}.

Definition waypointAlert (wp : Waypoint) (now : Z) : NavigationAlert :=
  {| alert_type := waypoint_reached;
     message := WaypointReachedMsg (wp_name wp);
     alert_severity := success; alert_timestamp := now; autoClose := None |}.

(** The distance that [useDeadReckoning] logs for a history. *)
Definition deadReckoning (h : list HistoryEntry) : list Effect :=
  if decide (length h < 2)%nat then []
  else
    match last h, h !! (length h - 2)%nat with
    | Some lastPosition, Some prevPosition =>
        [DeadReckoningLog
           (hist_speed lastPosition *
            (IZR (hist_timestamp lastPosition - hist_timestamp prevPosition)
             / 1000 / 3600))]
    | _, _ => []
    end.

(** Every orientation listener of the browser is a bound copy of the
    handler that was made before [nextBound]; [startCompassTracking]
    registers no other kind. *)
Definition onlyBoundListeners (b : Browser) : Prop :=
  forall l capture, (l, capture) ∈ orientationListeners b ->
    exists n, l = BoundHandler n /\ (n < nextBound b)%nat.

(** Every active watch was handed out before [nextWatchId]. *)
Definition watchesIssued (b : Browser) : Prop :=
  forall id, id ∈ activeWatches b -> (id < nextWatchId b)%nat.

(** A browser with a GPS and a compass that needs no permission. *)
Definition compassBrowser : Browser :=
  {| hasGeolocation := true; hasDeviceOrientationEvent := true;
     orientationPermission := not_required; hasVibrate := false;
     hasSpeechSynthesis := false; activeWatches := ∅; nextWatchId := 1;
     orientationListeners := []; nextBound := 0; storedActiveRoute := None;
     storedNavigationStartTime := None; storedNavigationPositions := [] |}.

(** A browser without geolocation. *)
Definition noGpsBrowser : Browser :=
  {| hasGeolocation := false; hasDeviceOrientationEvent := false;
     orientationPermission := not_required; hasVibrate := false;
     hasSpeechSynthesis := false; activeWatches := ∅; nextWatchId := 1;
     orientationListeners := []; nextBound := 0; storedActiveRoute := None;
     storedNavigationStartTime := None; storedNavigationPositions := [] |}.

(** [RouteSpec.exampleRoute] with a waypoint put on the middle of its
    leg, and navigation started on it. *)
Definition midWaypoint : Waypoint :=
  {| wp_id := "wp-1"; wp_lat := 0; wp_lon := 0.5; wp_name := "M";
     wp_timestamp := None; wp_type := waypoint |}.

Definition threePointRoute : Route :=
  addWaypoint "wp-1" RouteSpec.exampleRoute (mkPlace 0 0.5 "M") None.

Definition threePointWorld : World :=
  exec (startNavigation threePointRoute 1) freshWorld.

(** The world of [startedWorld] after [pauseNavigation]. *)
Definition pausedWorld : World := exec pauseNavigation startedWorld.

(** [startedWorld] in a browser that has a compass too. *)
Definition compassWorld : World :=
  {| self := newSystem; browser := compassBrowser; trace := [] |}.

End ControllerSpec.

(** * Properties *)

(** ** Geodesy *)

Section Geodesy.

Import RoutePlanning.

Lemma atan2_bounds (y x : R) : - PI < Js.atan2 y x <= PI.
Proof.
  pose proof PI_RGT_0 as Hpi.
  unfold Js.atan2.
  repeat case_decide; try lra.
  - pose proof (atan_bound (y / x)). lra.
  - assert (0 <= atan (y / x) + PI /\ atan (y / x) <= 0); [|lra].
    pose proof (atan_bound (y / x)). split; [lra|].
    destruct (Rle_lt_or_eq_dec 0 y ltac:(lra)) as [Hy|Hy].
    + assert (Hneg : y / x < 0).
      { unfold Rdiv. apply Rmult_pos_neg; [lra|]. apply Rinv_lt_0_compat. lra. }
      pose proof (atan_increasing _ _ Hneg) as Hinc. rewrite atan_0 in Hinc. lra.
    + subst y. unfold Rdiv. rewrite Rmult_0_l, atan_0. lra.
  - assert (Hpos : 0 < y / x).
    { unfold Rdiv. replace (y * / x) with ((- y) * (- / x)) by ring.
      apply Rmult_lt_0_compat; [lra|].
      pose proof (Rinv_lt_0_compat x ltac:(lra)). lra. }
    pose proof (atan_increasing _ _ Hpos) as Hinc. rewrite atan_0 in Hinc.
    pose proof (atan_bound (y / x)). lra.
Qed.

Lemma atan2_0_pos (x : R) : 0 < x -> Js.atan2 0 x = 0.
Proof.
  intros Hx. unfold Js.atan2. rewrite decide_True by done.
  unfold Rdiv. by rewrite Rmult_0_l, atan_0.
Qed.

Lemma calculateDistance_self (lat lon : R) : calculateDistance lat lon lat lon = 0.
Proof.
  unfold calculateDistance, toRadians.
  replace ((lat - lat) * PI / 180 / 2) with 0 by lra.
  replace ((lon - lon) * PI / 180 / 2) with 0 by lra.
  rewrite sin_0.
  replace (0 * 0 + cos (lat * PI / 180) * cos (lat * PI / 180) * 0 * 0) with 0 by ring.
  rewrite Rminus_0_r, sqrt_0, sqrt_1, atan2_0_pos by lra. ring.
Qed.

Lemma calculateDistance_sym (lat1 lon1 lat2 lon2 : R) :
  calculateDistance lat1 lon1 lat2 lon2 = calculateDistance lat2 lon2 lat1 lon1.
Proof.
  unfold calculateDistance, toRadians.
  replace ((lat1 - lat2) * PI / 180 / 2) with (- ((lat2 - lat1) * PI / 180 / 2)) by lra.
  replace ((lon1 - lon2) * PI / 180 / 2) with (- ((lon2 - lon1) * PI / 180 / 2)) by lra.
  rewrite !sin_neg.
  set (s1 := sin _). set (s2 := sin _). set (c1 := cos _). set (c2 := cos _).
  replace (- s1 * - s1 + c2 * c1 * - s2 * - s2) with (s1 * s1 + c1 * c2 * s2 * s2) by ring.
  reflexivity.
Qed.

(** The remainder of a non-negative dividend by a positive divisor. *)
Lemma rem_range (v m : R) : 0 < m -> 0 <= v -> 0 <= Js.rem v m < m.
Proof.
  intros Hm Hv. unfold Js.rem.
  assert (Hq : 0 <= v / m).
  { unfold Rdiv. apply Rmult_le_pos; [done|]. left. by apply Rinv_0_lt_compat. }
  unfold Js.trunc. rewrite decide_True by done.
  destruct (base_Int_part (v / m)) as [Hlo Hhi].
  set (k := IZR (Int_part (v / m))) in *.
  assert (Hv' : v = m * (v / m)) by (field; lra).
  split.
  - assert (m * k <= m * (v / m)) by (apply Rmult_le_compat_l; lra). lra.
  - assert (m * (v / m) < m * (k + 1)) by (apply Rmult_lt_compat_l; lra). lra.
Qed.

Lemma calculateBearing_range (lat1 lon1 lat2 lon2 : R) :
  0 <= calculateBearing lat1 lon1 lat2 lon2 < 360.
Proof.
  unfold calculateBearing. apply rem_range; [lra|].
  match goal with
  | |- context [Js.atan2 ?y ?x] => pose proof (atan2_bounds y x) as [Hlo _]
  end.
  unfold toDegrees. pose proof PI_RGT_0.
  set (b := Js.atan2 _ _) in *.
  assert (-180 < b * 180 / PI); [|lra].
  apply Rmult_lt_reg_r with PI; [done|].
  replace (b * 180 / PI * PI) with (b * 180) by (field; lra). lra.
Qed.

(** C9.  For all coordinates, the distance from a point to itself is 0,
    the distance is symmetric in its two points, and the bearing lies in
    the half-open interval from 0 to 360. *)
Theorem distance_and_bearing_laws (lat1 lon1 lat2 lon2 : R) :
  calculateDistance lat1 lon1 lat1 lon1 = 0 /\
  calculateDistance lat1 lon1 lat2 lon2 = calculateDistance lat2 lon2 lat1 lon1 /\
  0 <= calculateBearing lat1 lon1 lat2 lon2 < 360.
Proof.
  split_and!.
  - apply calculateDistance_self.
  - apply calculateDistance_sym.
  - apply calculateBearing_range.
  - apply calculateBearing_range.
Qed.

End Geodesy.

(** ** Route distance and navigation state *)

Section RouteSums.

Import RoutePlanning RouteSpec.

Lemma for_range_S {A : Type} (n : nat) (body : nat -> A -> A) (init : A) :
  Js.for_range (S n) body init = body n (Js.for_range n body init).
Proof. unfold Js.for_range. by rewrite seq_S, fold_left_app. Qed.

Lemma length_consecutiveDistances (ws : list Waypoint) :
  length (consecutiveDistances ws) = (length ws - 1)%nat.
Proof.
  induction ws as [|a [|b rest] IH]; simpl in *; try done. rewrite IH. lia.
Qed.

Lemma lookup_consecutiveDistances (ws : list Waypoint) (i : nat) :
  (S i < length ws)%nat ->
  consecutiveDistances ws !! i = Some (legDistance ws i).
Proof.
  revert i. induction ws as [|a [|b rest] IH]; intros i Hi; simpl in Hi; try lia.
  destruct i as [|i].
  - reflexivity.
  - change (consecutiveDistances (b :: rest) !! i = Some (legDistance (b :: rest) i)).
    apply IH. simpl. lia.
Qed.

Lemma sumR_app (xs ys : list R) : sumR (xs ++ ys) = sumR xs + sumR ys.
Proof.
  induction xs as [|v xs IH]; simpl; [lra|].
  unfold sumR in *. simpl. rewrite IH. lra.
Qed.

(** The accumulating loop over the first [n] legs. *)
Lemma sum_of_legs (ws : list Waypoint) (n : nat) :
  (n <= length ws - 1)%nat ->
  Js.for_range n (fun i acc => acc + legDistance ws i) 0
  = sumR (take n (consecutiveDistances ws)).
Proof.
  induction n as [|n IH]; intros Hn.
  - reflexivity.
  - rewrite for_range_S, IH by lia.
    assert (Hlk : consecutiveDistances ws !! n = Some (legDistance ws n))
      by (apply lookup_consecutiveDistances; lia).
    rewrite (take_S_r _ _ _ Hlk), sumR_app. simpl. lra.
Qed.

Lemma calculateRouteDistance_sum (ws : list Waypoint) :
  calculateRouteDistance ws = sumR (consecutiveDistances ws).
Proof.
  unfold calculateRouteDistance. rewrite sum_of_legs by lia.
  rewrite take_ge; [done|]. rewrite length_consecutiveDistances. lia.
Qed.

(** C5.  With the cursor at or past the last waypoint index the snapshot
    is the terminal one (no next waypoint, distance, bearing and ETA 0,
    progress 100) whatever the position; otherwise progress is the sum of
    the leg distances before the cursor, over the total, times 100. *)
Theorem calculateNavigationState_terminal_and_progress
  (pos : Position) (r : Route) (currentWaypointIndex : nat) :
  let st := calculateNavigationState pos r currentWaypointIndex in
  ((length (waypoints r) <= S currentWaypointIndex)%nat ->
     nextWaypoint st = None /\ distanceToNext st = 0 /\ bearingToNext st = 0 /\
     etaToNext st = 0 /\ progress st = 100) /\
  ((S currentWaypointIndex < length (waypoints r))%nat ->
     progress st =
       sumR (take currentWaypointIndex (consecutiveDistances (waypoints r)))
       / sumR (consecutiveDistances (waypoints r)) * 100).
Proof.
  unfold calculateNavigationState. split; intros Hlen.
  - rewrite (proj2 (lookup_ge_None _ _)) by lia. done.
  - destruct (lookup_lt_is_Some_2 (waypoints r) (S currentWaypointIndex) Hlen)
      as [next Hnext].
    rewrite Hnext. simpl.
    rewrite calculateRouteDistance_sum, sum_of_legs by lia. done.
Qed.

Lemma calculateNavigationState_terminal_and_progress_witness :
  progress (calculateNavigationState examplePosition exampleRoute 1) = 100 /\
  progress (calculateNavigationState examplePosition exampleRoute 0) =
    sumR (take 0 (consecutiveDistances (waypoints exampleRoute)))
    / sumR (consecutiveDistances (waypoints exampleRoute)) * 100.
Proof.
  split.
  - apply (calculateNavigationState_terminal_and_progress
             examplePosition exampleRoute 1).
    simpl. lia.
  - apply (calculateNavigationState_terminal_and_progress
             examplePosition exampleRoute 0).
    simpl. lia.
Defined.

End RouteSums.

(** ** Waypoint insertion *)

Section AddWaypoint.

Import RoutePlanning RouteSpec.

Lemma addWaypoint_waypoints freshId r p insertIndex :
  waypoints (addWaypoint freshId r p insertIndex) =
  take (insertPosition r insertIndex) (waypoints r) ++
  mkWaypoint freshId (place_lat p) (place_lon p) (place_name p) None waypoint
  :: drop (insertPosition r insertIndex) (waypoints r).
Proof.
  unfold addWaypoint, insertPosition, spliceInsert.
  destruct insertIndex as [i|]; simpl; [done|].
  unfold spliceStart.
  destruct (waypoints r) as [|a ws]; [done|].
  rewrite decide_False by (simpl; lia).
  replace (Z.to_nat _) with (length (a :: ws) - 1)%nat by (simpl; lia). done.
Qed.

Lemma firstType_insert (ws : list Waypoint) (k : nat) (x : Waypoint) :
  firstType (take k ws ++ x :: drop k ws) =
  if decide (k = 0%nat \/ ws = []) then Some (wp_type x) else firstType ws.
Proof.
  unfold firstType.
  destruct ws as [|a ws]; [by rewrite take_nil, drop_nil, decide_True by auto|].
  destruct k as [|k]; [by rewrite decide_True by auto|].
  rewrite decide_False; [done|]. intros [?|?]; done.
Qed.

Lemma lastType_insert (ws : list Waypoint) (k : nat) (x : Waypoint) :
  lastType (take k ws ++ x :: drop k ws) =
  if decide (length ws <= k)%nat then Some (wp_type x) else lastType ws.
Proof.
  unfold lastType. case_decide as Hk.
  - rewrite drop_ge by done. by rewrite last_snoc.
  - assert (Hd : drop k ws <> []).
    { intros Hnil. apply (f_equal length) in Hnil.
      rewrite length_drop in Hnil. simpl in Hnil. lia. }
    rewrite <- (take_drop k ws) at 3.
    destruct (drop k ws) as [|d ds] eqn:E; [done|].
    rewrite !last_app. rewrite last_cons. simpl.
    rewrite last_cons. destruct (last ds); done.
Qed.

(** Inserting at index 0 of a start-to-destination route puts the new
    [waypoint]-typed node first: the ends are not kept for every index. *)
Lemma addWaypoint_at_front_counterexample :
  ~ endsAndTotalsKept "wp-1" exampleRoute (mkPlace 1 1 "C") (Some 0%Z).
Proof.
  intros Hkept. destruct (Hkept eq_refl eq_refl) as [Hfirst _].
  rewrite addWaypoint_waypoints, firstType_insert in Hfirst.
  rewrite decide_True in Hfirst by (left; reflexivity).
  discriminate Hfirst.
Qed.

(** C7, amended.  On a route from a start-typed to a destination-typed
    waypoint, [addWaypoint] returns a route whose total distance is the
    sum of the consecutive-pair distances of the new sequence and whose
    estimated time is that total over the average speed; removing the new
    node gives back the input sequence; the ends keep their types exactly
    when the node lands strictly inside the sequence, which is the case
    when [insertIndex] is omitted. *)
Theorem addWaypoint_interior_keeps_ends
  (freshId : string) (r : Route) (p : Place) (insertIndex : option Z) :
  firstType (waypoints r) = Some start ->
  lastType (waypoints r) = Some destination ->
  let r' := addWaypoint freshId r p insertIndex in
  let k := insertPosition r insertIndex in
  totalDistance r' = sumR (consecutiveDistances (waypoints r')) /\
  estimatedTime r' = totalDistance r' / averageSpeed r /\
  delete k (waypoints r') = waypoints r /\
  (insertIndex = None -> (0 < k < length (waypoints r))%nat) /\
  ((0 < k < length (waypoints r))%nat <->
   firstType (waypoints r') = Some start /\
   lastType (waypoints r') = Some destination).
Proof.
  intros Hfirst Hlast r' k.
  assert (Hlen : (2 <= length (waypoints r))%nat).
  { unfold firstType, lastType in *.
    destruct (waypoints r) as [|a [|b ws]]; simpl in *; try done; [|lia].
    congruence. }
  assert (Hws : waypoints r' = take k (waypoints r) ++
     mkWaypoint freshId (place_lat p) (place_lon p) (place_name p) None waypoint
     :: drop k (waypoints r)) by apply addWaypoint_waypoints.
  assert (Hk : (k <= length (waypoints r))%nat).
  { subst k. unfold insertPosition, spliceStart. destruct insertIndex; [|lia].
    case_decide; lia. }
  split; [|split; [|split; [|split]]].
  - unfold r', addWaypoint. simpl. apply calculateRouteDistance_sum.
  - reflexivity.
  - rewrite Hws.
    replace k with (length (take k (waypoints r))) at 1
      by (rewrite length_take; lia).
    rewrite delete_middle. apply take_drop.
  - intros ->. subst k. simpl. lia.
  - rewrite Hws, firstType_insert, lastType_insert, Hfirst, Hlast. simpl.
    repeat case_decide; split; intros; try lia; try done;
      try (destruct_and?; congruence).
    match goal with
    | H : _ \/ waypoints r = [] |- _ =>
        destruct H as [?|Hnil]; [lia|]; rewrite Hnil in Hlen; simpl in Hlen; lia
    end.
Qed.

Lemma addWaypoint_interior_keeps_ends_witness :
  firstType (waypoints (addWaypoint "wp-1" exampleRoute (mkPlace 1 1 "C") None))
    = Some start /\
  lastType (waypoints (addWaypoint "wp-1" exampleRoute (mkPlace 1 1 "C") None))
    = Some destination.
Proof.
  destruct (addWaypoint_interior_keeps_ends "wp-1" exampleRoute
              (mkPlace 1 1 "C") None eq_refl eq_refl)
    as (_ & _ & _ & Hinside & Hends).
  apply Hends, Hinside. reflexivity.
Defined.

End AddWaypoint.


(** ** Numbers that can be NaN or infinite *)

Section Numbers.










End Numbers.

(** ** Route hazard analysis *)

Section HazardScan.

Import NauticalChart HazardSpec.












End HazardScan.

Section HazardAnalysis.

Import NauticalChart HazardSpec.

















End HazardAnalysis.

Section ParsedHazards.

Import NauticalChart HazardSpec.

(** Every row of the classification table, and the fallback, has a
    radius other than 0. *)
Lemma classifySeamark_radius seamarkType tags :
  cl_radius (classifySeamark seamarkType tags) <> 0.
Proof.
  unfold classifySeamark.
  destruct (classifications tags !! seamarkType) as [c|] eqn:E; simpl; [|lra].
  apply elem_of_list_to_map_2 in E.
  repeat (apply elem_of_cons in E as [E|E]; [simplify_eq; simpl; lra|]).
  by apply elem_of_nil in E.
Qed.

(** For a hazard that [parseSeamarkData] builds, [radius || 100] is the
    radius, or 100 when the hazard has none, and the depth is what
    [parseDepth] reads from the tags of its element: a number or
    nothing, never [null]. *)
Lemma parseSeamarkData_hazard parseFloat elements h :
  h ∈ parseSeamarkData parseFloat elements ->
  Js.or_default (radius h) 100 = default 100 (radius h) /\
  (exists tags, depth h = Some <$> parseDepth parseFloat tags) /\
  depth h <> Some None.
Proof.
  destruct elements as [es|]; simpl; [|intros Hin; by apply elem_of_nil in Hin].
  intros Hin. apply list_elem_of_In, in_flat_map in Hin as (el & _ & Hin).
  apply list_elem_of_In in Hin. unfold parseElement in Hin.
  destruct (truthy _); [|by apply elem_of_nil in Hin].
  destruct (_ && _).
  - apply list_elem_of_singleton in Hin. subst h. simpl. split_and!; [|eauto|].
    + rewrite decide_False by apply classifySeamark_radius. done.
    + by destruct (parseDepth _ _).
  - destruct (geometry el) as [points|]; [|by apply elem_of_nil in Hin].
    destruct (bool_decide _); [|by apply elem_of_nil in Hin].
    apply list_elem_of_singleton in Hin. subst h. simpl. split_and!; [done|eauto|].
    by destruct (parseDepth _ _).
Qed.

(** So the hazards of an answer have depths that are numbers. *)
Lemma parseSeamarkData_numericDepths parseFloat elements :
  numericDepths (parseSeamarkData parseFloat elements).
Proof. intros h Hin. by apply parseSeamarkData_hazard in Hin as (_ & _ & ?). Qed.

End ParsedHazards.

Section SafetyVerdict.

Import NauticalChart HazardSpec.










End SafetyVerdict.

Section ReroutingAndAvoidance.

Import NauticalChart HazardSpec.

(** C2.  [requiresRerouting] is true exactly when the analysis is not
    safe, or an attached hazard is critical, or the minimum depth is
    known and below 1.0, whatever the vessel draft. *)
Theorem requiresRerouting_iff (analysis : RouteAnalysis) :
  requiresRerouting analysis = true <->
  isSafe analysis = false \/
  (exists rh, rh ∈ hazards analysis /\ severity (hazard rh) = critical) \/
  (exists m, minDepth analysis = Some m /\ Js.lt m (Js.Finite 1.0)).
Proof.
  unfold requiresRerouting.
  rewrite !orb_true_iff, negb_true_iff, existsb_exists.
  split.
  - intros [[Hs|(rh & Hin & Hc)]|Hd].
    + by left.
    + right; left. exists rh. split; [by apply list_elem_of_In|].
      by apply bool_decide_eq_true in Hc.
    + right; right. destruct (minDepth analysis) as [m|]; [|done].
      exists m. split; [done|]. by apply bool_decide_eq_true in Hd.
  - intros [Hs|[(rh & Hin & Hc)|(m & Hm & Hlt)]].
    + by left; left.
    + left; right. exists rh. split; [by apply list_elem_of_In|].
      by apply bool_decide_eq_true.
    + right. rewrite Hm. by apply bool_decide_eq_true.
Qed.

(** C8.  [suggestHazardAvoidance] returns [null] exactly when the leg
    has zero length.  Otherwise it returns a point whose displacement
    from the midpoint of the leg is perpendicular to the leg, on its left
    in (lon, lat) axes, and of length
    [(radius || 100) + safetyMargin) * 1.5 / 111320] degrees. *)
Theorem suggestHazardAvoidance_null_iff_zero_leg
  (h : NauticalHazard) (legStart legEnd : LatLon) (safetyMargin : R) :
  (suggestHazardAvoidance h legStart legEnd safetyMargin = None <->
   legStart = legEnd) /\
  (legStart <> legEnd ->
   exists p, suggestHazardAvoidance h legStart legEnd safetyMargin = Some p /\
     let offsetDegrees :=
       (Js.or_default (radius h) 100 + safetyMargin) * 1.5 / 111320 in
     let dLat := RoutePlanning.place_lat p - (lat legStart + lat legEnd) / 2 in
     let dLon := RoutePlanning.place_lon p - (lon legStart + lon legEnd) / 2 in
     let legLon := lon legEnd - lon legStart in
     let legLat := lat legEnd - lat legStart in
     dLon * legLon + dLat * legLat = 0 /\
     dLon * dLon + dLat * dLat = offsetDegrees * offsetDegrees /\
     legLon * dLat - legLat * dLon
       = offsetDegrees * sqrt (legLon * legLon + legLat * legLat)).
Proof.
  set (dx := lon legEnd - lon legStart).
  set (dy := lat legEnd - lat legStart).
  assert (Hsq : 0 <= dx * dx + dy * dy) by nra.
  assert (Hzero : sqrt (dx * dx + dy * dy) = 0 <-> legStart = legEnd).
  { split.
    - intros H0. apply sqrt_eq_0 in H0; [|done].
      assert (dx = 0 /\ dy = 0) as [Hx Hy] by (split; nra).
      subst dx dy. destruct legStart, legEnd; simpl in *. f_equal; lra.
    - intros ->. subst dx dy. rewrite !Rminus_diag.
      replace (0 * 0 + 0 * 0) with 0 by ring. apply sqrt_0. }
  split.
  - unfold suggestHazardAvoidance. fold dx dy. case_decide as Hl.
    + split; [intros _; by apply Hzero|done].
    + split; [done|]. intros Heq. by apply Hzero in Heq.
  - intros Hne. unfold suggestHazardAvoidance. fold dx dy.
    rewrite decide_False by (intros H0; by apply Hzero in H0).
    eexists. split; [reflexivity|]. simpl.
    set (len := sqrt (dx * dx + dy * dy)).
    assert (Hlen : len <> 0) by (intros H0; by apply Hzero in H0).
    assert (Hll : len * len = dx * dx + dy * dy) by (by apply sqrt_sqrt).
    set (off := (Js.or_default (radius h) 100 + safetyMargin) * 1.5 / 111320).
    replace ((Js.or_default (radius h) 100 + safetyMargin) / 111320 * 1.5) with off
      by (unfold off; lra).
    split_and!.
    + field. done.
    + replace (_ + _) with (off * off * ((dx * dx + dy * dy) / (len * len)))
        by (field; done).
      rewrite <- Hll. field. done.
    + replace (_ - _) with (off * ((dx * dx + dy * dy) / len)) by (field; done).
      rewrite <- Hll. field. done.
Qed.

Lemma suggestHazardAvoidance_null_iff_zero_leg_witness :
  exists p,
    suggestHazardAvoidance midLegHazard (mkLatLon 0 0) (mkLatLon 0 1) 500 = Some p /\
    RoutePlanning.place_lon p = 1 / 2.
Proof.
  destruct (proj2 (suggestHazardAvoidance_null_iff_zero_leg midLegHazard
                     (mkLatLon 0 0) (mkLatLon 0 1) 500))
    as (p & Hp & Hperp & _).
  - intros Heq. apply (f_equal lon) in Heq. simpl in Heq. lra.
  - exists p. split; [exact Hp|]. simpl in Hperp. lra.
Defined.

End ReroutingAndAvoidance.

(** ** The navigation controller *)

Section Controller.

Import RoutePlanning OfflineNavigation NavigationSpec.

(** Symbolic execution of the monadic code on an opened world. *)
Ltac run :=
  cbv beta iota zeta delta
    [bind ret this window update updateBrowser perform when emit emitAlert
     clearWatch watchPosition addOrientationListener removeOrientationListener
     bindHandleOrientation exec fst snd self browser trace
     watchId route currentWaypointIndex isNavigating config listeners
     navigationHistory currentHeading currentSpeed smoothedSpeeds
     set_watchId set_route set_currentWaypointIndex set_isNavigating
     set_listeners set_navigationHistory set_currentHeading set_currentSpeed
     set_smoothedSpeeds set_watches set_orientationListeners set_storedRoute
     set_storedPositions hasGeolocation hasDeviceOrientationEvent
     orientationPermission hasVibrate hasSpeechSynthesis activeWatches
     nextWatchId orientationListeners nextBound storedActiveRoute
     storedNavigationStartTime storedNavigationPositions
     enableVibration enableVoiceAlerts waypointThresholdNM
     feedback destinationAlert andb negb].

Ltac open_world w :=
  destruct w as [[wid rt idx nav [ui thr voice vibr ssf] ls hist hd sp sm]
                 [geo ori perm vib speech watches nextW ols nextB sr st cp] t].

Lemma exec_bind {A B : Type} (c : M A) (k : A -> M B) (w : World) :
  exec (bind c k) w = exec (k (fst (c w))) (exec c w).
Proof. unfold exec, bind. by destruct (c w). Qed.

Lemma run_bind {A B : Type} (c : M A) (k : A -> M B) (w : World) :
  bind c k w = k (fst (c w)) (snd (c w)).
Proof. unfold bind. by destruct (c w). Qed.

(** The guard at the top of [handlePositionUpdate]. *)
Lemma handlePositionUpdate_idle coords now w :
  route (self w) = None \/ isNavigating (self w) = false ->
  handlePositionUpdate coords now w = (tt, w).
Proof.
  intros Hidle. unfold handlePositionUpdate. rewrite run_bind. simpl.
  destruct (route (self w)) as [r|]; [|done].
  destruct Hidle as [? | ->]; done.
Qed.

Lemma forEachWatch_idle ids (callback : M unit) w :
  callback w = (tt, w) -> forEachWatch ids callback w = (tt, w).
Proof.
  intros Hcb. induction ids as [|id ids IH]; [done|].
  simpl. rewrite run_bind. simpl. rewrite run_bind.
  unfold when. case_bool_decide; simpl; rewrite ?Hcb; simpl; exact IH.
Qed.

Lemma deliverPosition_idle coords now w :
  route (self w) = None \/ isNavigating (self w) = false ->
  deliverPosition coords now w = (tt, w).
Proof.
  intros Hidle. unfold deliverPosition. rewrite run_bind. simpl.
  by apply forEachWatch_idle, handlePositionUpdate_idle.
Qed.

(** C10.  [pauseNavigation] changes the [isNavigating] flag and nothing
    else: the watch id, the active geolocation watches and the
    orientation listeners stay, so fixes keep arriving; a fix that
    arrives while paused leaves the controller as it is and emits
    nothing; [resumeNavigation] with a route set makes [isNavigating]
    true again. *)
Theorem pauseNavigation_gates_checks (w : World) :
  let paused := exec pauseNavigation w in
  self paused = set_isNavigating false (self w) /\
  browser paused = browser w /\
  trace paused =
    trace w ++ [Emit "navigationPaused" NavigationPaused
                  (listeners (self w) !! "navigationPaused")] /\
  (forall coords now, handlePositionUpdate coords now paused = (tt, paused)) /\
  (forall coords now, deliverPosition coords now paused = (tt, paused)) /\
  (forall r, route (self w) = Some r ->
     isNavigating (self (exec resumeNavigation paused)) = true /\
     route (self (exec resumeNavigation paused)) = Some r /\
     browser (exec resumeNavigation paused) = browser w).
Proof.
  intros paused.
  assert (Hp : paused =
    mkWorld (set_isNavigating false (self w)) (browser w)
      (trace w ++ [Emit "navigationPaused" NavigationPaused
                     (listeners (self w) !! "navigationPaused")]))
    by reflexivity.
  split_and!; try (rewrite Hp; reflexivity).
  - intros coords now. apply handlePositionUpdate_idle. right. by rewrite Hp.
  - intros coords now. apply deliverPosition_idle. right. by rewrite Hp.
  - intros r Hr. rewrite Hp. unfold resumeNavigation. rewrite exec_bind. simpl.
    rewrite Hr. done.
Qed.

(** The normalised difference never exceeds 180, for any heading. *)
Lemma normalizedDiff_le_180 ns : normalizedDiff ns <= 180.
Proof.
  unfold normalizedDiff.
  pose proof (Rmin_l (Rabs (bearingToNext ns - heading ns))
                (360 - Rabs (bearingToNext ns - heading ns))).
  pose proof (Rmin_r (Rabs (bearingToNext ns - heading ns))
                (360 - Rabs (bearingToNext ns - heading ns))).
  lra.
Qed.

Lemma normalizedDiff_range ns :
  0 <= heading ns < 360 -> 0 <= bearingToNext ns < 360 ->
  0 <= normalizedDiff ns <= 180.
Proof.
  intros Hh Hb. split; [|apply normalizedDiff_le_180].
  unfold normalizedDiff. apply Rmin_glb; [apply Rabs_pos|].
  assert (Rabs (bearingToNext ns - heading ns) < 360); [|lra].
  apply Rabs_def1; lra.
Qed.

(** Everything [checkCourseDeviation] does when a next waypoint exists:
    the branch that would say "left" is never taken. *)
Lemma checkCourseDeviation_run ns now w wp :
  nextWaypoint ns = Some wp ->
  checkCourseDeviation ns now w =
  (tt, mkWorld (self w) (browser w)
         (trace w ++
          (if decide (normalizedDiff ns > 45)
           then [Emit "alert" (Alert (courseAlert "right" ns now))
                   (listeners (self w) !! "alert")]
           else []) ++
          (if decide (speed ns < 0.5)
           then [Emit "alert" (Alert (lowSpeedAlert now))
                   (listeners (self w) !! "alert")]
           else []))).
Proof.
  intros Hnext. unfold checkCourseDeviation. rewrite Hnext.
  fold (normalizedDiff ns).
  rewrite (decide_False (P := normalizedDiff ns > 180))
    by (pose proof (normalizedDiff_le_180 ns); lra).
  rewrite run_bind. unfold when.
  destruct w as [n b t].
  repeat case_bool_decide; repeat case_decide; try done;
    unfold emitAlert, emit, perform, this, bind, ret; simpl;
    rewrite ?app_nil_r, <- ?app_assoc; reflexivity.
Qed.

(** The course alert is emitted exactly above 45 degrees (so not at 45),
    and whenever it is emitted it says "right". *)
Lemma checkCourseDeviation_alert_iff ns now w wp :
  nextWaypoint ns = Some wp ->
  exists new,
    trace (exec (checkCourseDeviation ns now) w) = trace w ++ new /\
    ((exists a cb, Emit "alert" (Alert a) cb ∈ new /\
                   alert_type a = course_correction /\
                   alert_severity a = warning)
     <-> normalizedDiff ns > 45) /\
    (forall a cb turn bearing,
       Emit "alert" (Alert a) cb ∈ new ->
       message a = OffCourseMsg turn bearing -> turn = "right").
Proof.
  intros Hnext. unfold exec. rewrite (checkCourseDeviation_run ns now w wp Hnext).
  eexists. split; [reflexivity|]. split.
  - split.
    + intros (a & cb & Hin & Hty & _).
      destruct (decide (normalizedDiff ns > 45)); [done|].
      destruct (decide (speed ns < 0.5)); simpl in Hin.
      * apply list_elem_of_singleton in Hin. simplify_eq.
      * by apply elem_of_nil in Hin.
    + intros Hgt. rewrite decide_True by done.
      exists (courseAlert "right" ns now), (listeners (self w) !! "alert").
      split; [left|done].
  - intros a cb turn bearing Hin Hmsg.
    apply elem_of_app in Hin as [Hin|Hin];
      case_decide; try (by apply elem_of_nil in Hin);
      apply list_elem_of_singleton in Hin; simplify_eq;
      unfold courseAlert, lowSpeedAlert in Hmsg; simpl in Hmsg; congruence.
Qed.

Lemma calculateBearing_due_west : calculateBearing 0 0 0 (-1) = 270.
Proof.
  pose proof PI_RGT_0 as Hpi.
  unfold calculateBearing, toRadians, toDegrees.
  replace ((-1 - 0) * PI / 180) with (- (PI / 180)) by lra.
  replace (0 * PI / 180) with 0 by lra.
  rewrite sin_0, cos_0, sin_neg.
  replace (1 * 0 - 0 * 1 * cos (- (PI / 180))) with 0 by ring.
  assert (Hsin : 0 < sin (PI / 180)) by (apply sin_gt_0; lra).
  replace (Js.atan2 (- sin (PI / 180) * 1) 0) with (- (PI / 2))
    by (unfold Js.atan2; repeat case_decide; lra).
  replace (- (PI / 2) * 180 / PI + 360) with 270 by (field; lra).
  unfold Js.rem, Js.trunc. rewrite decide_True by lra.
  replace (Int_part (270 / 360)) with 0%Z; [lra|].
  apply Int_part_spec. simpl. lra.
Qed.

Lemma offCourseState_fields :
  nextWaypoint offCourseState
    = Some (mkWaypoint "destination" 0 (-1) "W" None destination) /\
  bearingToNext offCourseState = 270 /\
  heading offCourseState = 50 /\ speed offCourseState = 5.
Proof.
  unfold offCourseState, calculateNavigationState. simpl.
  split_and!; try reflexivity. apply calculateBearing_due_west.
Qed.

(** C4.  Code at a failing input.  At the start of a route whose next
    waypoint lies due west (bearing 270), on heading 50, the signed
    difference is 220, above 180, and the normalised difference is 140,
    above 45: [checkCourseDeviation] emits the warning course-correction
    alert, and its message says "right", not "left". *)
Theorem checkCourseDeviation_says_right_at_220 (w : World) (now : Z) :
  bearingToNext offCourseState - heading offCourseState > 180 /\
  normalizedDiff offCourseState > 45 /\
  checkCourseDeviation offCourseState now w =
  (tt, mkWorld (self w) (browser w)
         (trace w ++
          [Emit "alert"
             (Alert {| alert_type := course_correction;
                       message := OffCourseMsg "right" 270;
                       alert_severity := warning; alert_timestamp := now;
                       autoClose := Some true |})
             (listeners (self w) !! "alert")])).
Proof.
  destruct offCourseState_fields as (Hnext & Hb & Hh & Hs).
  assert (Hnd : normalizedDiff offCourseState = 140).
  { unfold normalizedDiff. rewrite Hb, Hh.
    rewrite Rabs_right by lra. rewrite Rmin_right by lra. lra. }
  split_and!.
  - rewrite Hb, Hh. lra.
  - rewrite Hnd. lra.
  - rewrite (checkCourseDeviation_run offCourseState now w _ Hnext), Hnd, Hs.
    rewrite decide_True by lra. rewrite decide_False by lra.
    unfold courseAlert. rewrite Hb. simpl.
    replace (Js.round 270) with 270%Z; [done|].
    unfold Js.round. apply Int_part_spec. simpl. lra.
Qed.

(** *** Arrival at the destination *)

Lemma stopNavigation_run w :
  exists b',
  stopNavigation w =
  (tt, mkWorld
         (set_currentWaypointIndex 0
            (set_route None (set_isNavigating false (set_watchId None (self w)))))
         b'
         (trace w ++
          [Emit "navigationStopped" NavigationStopped
             (listeners (self w) !! "navigationStopped");
           ConsoleLog "Navigation Stopped"])) /\
  activeWatches b' =
    match watchId (self w) with
    | Some id => activeWatches (browser w) ∖ {[ id ]}
    | None => activeWatches (browser w)
    end.
Proof.
  open_world w. unfold stopNavigation.
  destruct wid as [id|], ori; run;
    (eexists; split; [rewrite <- ?app_assoc; reflexivity|]; reflexivity).
Qed.





Lemma calculateNavigationState_next pos r idx next :
  waypoints r !! S idx = Some next ->
  nextWaypoint (calculateNavigationState pos r idx) = Some next /\
  distanceToNext (calculateNavigationState pos r idx) =
    calculateDistance (pos_lat pos) (pos_lon pos) (wp_lat next) (wp_lon next).
Proof. intros Hnext. unfold calculateNavigationState. by rewrite Hnext. Qed.






Lemma pauseNavigation_gates_checks_witness :
  isNavigating (self (exec resumeNavigation (exec pauseNavigation startedWorld)))
  = true.
Proof.
  destruct (pauseNavigation_gates_checks startedWorld)
    as (_ & _ & _ & _ & _ & Hresume).
  apply (Hresume RouteSpec.exampleRoute). reflexivity.
Defined.

End Controller.

(** * Further properties of the code *)

(** ** Route planning: states, routes, storage and display *)

Section RoutePlanningBehaviour.

Import RoutePlanning RouteSpec.

(** [Math.atan2] on two numbers that are not negative. *)
Lemma atan2_quadrant1 (y x : R) : 0 <= y -> 0 <= x -> 0 <= Js.atan2 y x <= PI / 2.
Proof.
  intros Hy Hx. unfold Js.atan2.
  pose proof PI_RGT_0 as Hpi.
  repeat case_decide; try lra.
  assert (0 <= y / x) as Hq.
  { unfold Rdiv. apply Rmult_le_pos; [lra|]. left. apply Rinv_0_lt_compat. lra. }
  pose proof (atan_bound (y / x)) as [_ Hub].
  destruct Hq as [Hq | <-].
  - pose proof (atan_increasing 0 (y / x) Hq) as Hinc. rewrite atan_0 in Hinc. lra.
  - rewrite atan_0. lra.
Qed.

(** A distance is at most half the circumference of the sphere. *)
Lemma calculateDistance_range (lat1 lon1 lat2 lon2 : R) :
  0 <= calculateDistance lat1 lon1 lat2 lon2 <= 3440.065 * PI.
Proof.
  unfold calculateDistance.
  match goal with |- context [Js.atan2 ?y ?x] =>
    pose proof (atan2_quadrant1 y x (sqrt_pos _) (sqrt_pos _)) as Hq;
    set (c := Js.atan2 y x) in *
  end.
  cbv zeta. nra.
Qed.

Lemma consecutiveDistances_nonneg ws : Forall (Rle 0) (consecutiveDistances ws).
Proof.
  induction ws as [|a [|b rest] IH]; simpl; try constructor; try done.
  apply calculateDistance_range.
Qed.

(** Partial sums of lengths grow with the number of legs. *)
Lemma sumR_take_mono (l : list R) (i j : nat) :
  Forall (Rle 0) l -> (i <= j)%nat ->
  0 <= sumR (take i l) <= sumR (take j l).
Proof.
  intros Hl. revert i j. induction Hl as [|x l Hx Hl IH]; intros i j Hij.
  - rewrite !take_nil. simpl. lra.
  - destruct i as [|i]; destruct j as [|j]; try lia; simpl.
    + lra.
    + destruct (IH 0%nat j ltac:(lia)) as [_ H]. rewrite take_0 in H. simpl in H.
      unfold sumR in *. lra.
    + destruct (IH i j ltac:(lia)) as [H1 H2]. unfold sumR in *. lra.
Qed.

(** The progress with a next waypoint, and without one. *)
Lemma progress_formula pos r i :
  (S i < length (waypoints r))%nat ->
  progress (calculateNavigationState pos r i) =
  sumR (take i (consecutiveDistances (waypoints r)))
  / sumR (take (length (waypoints r)) (consecutiveDistances (waypoints r))) * 100.
Proof.
  intros Hi. unfold calculateNavigationState.
  destruct (lookup_lt_is_Some_2 (waypoints r) (S i) Hi) as [next ->].
  cbn [progress]. rewrite calculateRouteDistance_sum, sum_of_legs by lia.
  rewrite (take_ge (consecutiveDistances (waypoints r)) (length (waypoints r))); [done|].
  rewrite length_consecutiveDistances. lia.
Qed.

Lemma progress_terminal pos r i :
  (length (waypoints r) <= S i)%nat ->
  progress (calculateNavigationState pos r i) = 100.
Proof.
  intros Hi. unfold calculateNavigationState.
  rewrite (lookup_ge_None_2 (waypoints r) (S i)) by lia. done.
Qed.

(** X1.  While the route has a positive length, the progress that
    [calculateNavigationState] reports lies between 0 and 100 and never
    goes down when the waypoint cursor moves forward. *)
Theorem progress_bounded_and_monotone (pos : Position) (r : Route) (i j : nat) :
  0 < calculateRouteDistance (waypoints r) ->
  (i <= j)%nat ->
  0 <= progress (calculateNavigationState pos r i) /\
  progress (calculateNavigationState pos r i)
    <= progress (calculateNavigationState pos r j) /\
  progress (calculateNavigationState pos r j) <= 100.
Proof.
  intros Htotal Hij.
  rewrite calculateRouteDistance_sum in Htotal.
  pose proof (consecutiveDistances_nonneg (waypoints r)) as Hnn.
  set (cd := consecutiveDistances (waypoints r)) in *.
  set (n := length (waypoints r)).
  assert (sumR (take n cd) = sumR cd) as Hall.
  { rewrite take_ge; [done|]. subst cd n. rewrite length_consecutiveDistances. lia. }
  assert (forall k, (S k < n)%nat ->
            0 <= progress (calculateNavigationState pos r k) <= 100) as Hone.
  { intros k Hk. rewrite progress_formula by exact Hk. fold cd n.
    destruct (sumR_take_mono cd k n Hnn ltac:(lia)) as [H0 H1].
    rewrite Hall in *. split.
    - apply Rmult_le_pos; [|lra]. unfold Rdiv. apply Rmult_le_pos; [lra|].
      left. by apply Rinv_0_lt_compat.
    - apply (Rmult_le_reg_r (sumR cd)); [lra|]. field_simplify; lra. }
  destruct (decide (S j < n)%nat) as [Hj|Hj].
  - split; [apply Hone; lia|]. split; [|apply Hone; lia].
    rewrite !progress_formula by (fold n; lia). fold cd n.
    destruct (sumR_take_mono cd i j Hnn Hij) as [_ H1]. rewrite Hall.
    apply Rmult_le_compat_r; [lra|]. unfold Rdiv. apply Rmult_le_compat_r; [|lra].
    left. by apply Rinv_0_lt_compat.
  - rewrite (progress_terminal pos r j) by (fold n; lia).
    destruct (decide (S i < n)%nat) as [Hi|Hi].
    + destruct (Hone i Hi). lra.
    + rewrite (progress_terminal pos r i) by (fold n; lia). lra.
Qed.

Lemma atan2_pos (y x : R) : 0 < y -> 0 <= x -> 0 < Js.atan2 y x.
Proof.
  intros Hy Hx. unfold Js.atan2. pose proof PI_RGT_0.
  repeat case_decide; try lra.
  assert (0 < y / x) as Hq.
  { unfold Rdiv. apply Rmult_lt_0_compat; [lra|]. apply Rinv_0_lt_compat. lra. }
  pose proof (atan_increasing 0 (y / x) Hq) as Hinc. by rewrite atan_0 in Hinc.
Qed.

Lemma calculateDistance_one_degree_east : 0 < calculateDistance 0 0 0 1.
Proof.
  unfold calculateDistance, toRadians. cbv zeta.
  replace ((0 - 0) * PI / 180 / 2) with 0 by lra.
  replace (0 * PI / 180) with 0 by lra.
  rewrite sin_0, cos_0.
  pose proof PI_RGT_0 as Hpi. pose proof PI_4 as Hpi4.
  assert (0 < sin ((1 - 0) * PI / 180 / 2)) as Hs by (apply sin_gt_0; lra).
  apply Rmult_lt_0_compat; [lra|]. apply Rmult_lt_0_compat; [lra|].
  apply atan2_pos; [|apply sqrt_pos].
  apply sqrt_lt_R0. nra.
Qed.

(** The example route has a positive length. *)
Lemma exampleRoute_distance_pos : 0 < calculateRouteDistance (waypoints exampleRoute).
Proof.
  unfold exampleRoute, generateRoute. cbn [waypoints].
  unfold calculateRouteDistance, Js.for_range, legDistance. simpl.
  pose proof calculateDistance_one_degree_east. lra.
Qed.

Lemma progress_bounded_and_monotone_witness :
  0 <= progress (calculateNavigationState examplePosition exampleRoute 0) /\
  progress (calculateNavigationState examplePosition exampleRoute 0)
    <= progress (calculateNavigationState examplePosition exampleRoute 1) /\
  progress (calculateNavigationState examplePosition exampleRoute 1) <= 100.
Proof.
  apply (progress_bounded_and_monotone examplePosition exampleRoute 0 1).
  - exact exampleRoute_distance_pos.
  - lia.
Defined.

(** X3.  [generateRoute] gives a route whose length is the distance from
    the start to the destination; [addWaypoint] without an index on that
    route puts the new waypoint between the two, keeps the id, and makes
    the total the sum of the two new legs and the time the total over the
    average speed. *)
Theorem addWaypoint_to_generated_route
  (routeId waypointId : string) (now : Z) (from to p : Place) (knots : R) :
  let r0 := generateRoute routeId now from to knots in
  let r := addWaypoint waypointId r0 p None in
  totalDistance r0 =
    calculateDistance (place_lat from) (place_lon from) (place_lat to) (place_lon to) /\
  map wp_type (waypoints r) = [start; waypoint; destination] /\
  map wp_name (waypoints r) = [place_name from; place_name p; place_name to] /\
  totalDistance r =
    calculateDistance (place_lat from) (place_lon from) (place_lat p) (place_lon p) +
    calculateDistance (place_lat p) (place_lon p) (place_lat to) (place_lon to) /\
  estimatedTime r = totalDistance r / knots /\
  route_id r = routeId.
Proof.
  cbv zeta. unfold addWaypoint, generateRoute.
  cbn [waypoints totalDistance estimatedTime route_id averageSpeed].
  unfold spliceInsert, spliceStart. cbn [length].
  replace (Z.of_nat 2 - 1)%Z with 1%Z by lia.
  rewrite decide_False by lia.
  replace (Z.to_nat (Z.min 1 (Z.of_nat 2))) with 1%nat by lia.
  cbn [take drop app map wp_type wp_name].
  unfold calculateRouteDistance, Js.for_range, legDistance.
  cbn [length Nat.sub seq fold_left lookup list_lookup wp_lat wp_lon].
  repeat split; try done; lra.
Qed.


(** X4.  [isNearWaypoint] is symmetric in the two positions; a position
    is near itself for every threshold that is not negative; nothing is
    near under a negative threshold; and what is near under a threshold
    is near under every larger one. *)
Theorem isNearWaypoint_threshold_laws (lat1 lon1 lat2 lon2 t t' : R) :
  isNearWaypoint lat1 lon1 lat2 lon2 t = isNearWaypoint lat2 lon2 lat1 lon1 t /\
  (0 <= t -> isNearWaypoint lat1 lon1 lat1 lon1 t = true) /\
  (t < 0 -> isNearWaypoint lat1 lon1 lat2 lon2 t = false) /\
  (t <= t' -> isNearWaypoint lat1 lon1 lat2 lon2 t = true ->
     isNearWaypoint lat1 lon1 lat2 lon2 t' = true).
Proof.
  unfold isNearWaypoint. cbv zeta.
  pose proof (calculateDistance_range lat1 lon1 lat2 lon2) as [Hd _].
  repeat split.
  - by rewrite (calculateDistance_sym lat1 lon1 lat2 lon2).
  - intros Ht. rewrite calculateDistance_self. apply bool_decide_eq_true. lra.
  - intros Ht. apply bool_decide_eq_false. lra.
  - intros Ht Hnear. apply bool_decide_eq_true in Hnear. apply bool_decide_eq_true. lra.
Qed.

Lemma isNearWaypoint_threshold_laws_witness :
  isNearWaypoint 0 0 0 0 defaultThresholdNM = true /\
  isNearWaypoint 0 0 0 1 (-1) = false.
Proof.
  destruct (isNearWaypoint_threshold_laws 0 0 0 1 defaultThresholdNM 1) as (_ & Hself & _).
  destruct (isNearWaypoint_threshold_laws 0 0 0 1 (-1) 1) as (_ & _ & Hneg & _).
  split; [apply Hself; unfold defaultThresholdNM; lra | apply Hneg; lra].
Defined.

(** X2.  In every navigation state the distance to the next waypoint is
    between 0 and half the circumference of the sphere of radius
    3440.065 NM, the bearing is in [0, 360), the ETA is 0 at speed 0 and
    not negative at a speed that is not negative, and a next waypoint is
    reported exactly when one follows the cursor. *)
Theorem calculateNavigationState_readings_in_range
  (pos : Position) (r : Route) (i : nat) :
  let st := calculateNavigationState pos r i in
  0 <= distanceToNext st <= 3440.065 * PI /\
  0 <= bearingToNext st < 360 /\
  (pos_speed pos = 0 -> etaToNext st = 0) /\
  (0 <= pos_speed pos -> 0 <= etaToNext st) /\
  (is_Some (nextWaypoint st) <-> (S i < length (waypoints r))%nat).
Proof.
  cbv zeta. unfold calculateNavigationState. pose proof PI_RGT_0.
  destruct (waypoints r !! S i) as [next|] eqn:Hnext;
    cbn [distanceToNext bearingToNext etaToNext nextWaypoint].
  - pose proof (calculateDistance_range (pos_lat pos) (pos_lon pos)
                  (wp_lat next) (wp_lon next)) as Hd.
    repeat split; try apply Hd; try apply calculateBearing_range.
    + intros Hs. unfold calculateETA. by rewrite decide_True.
    + intros Hs. unfold calculateETA. case_decide; [lra|].
      apply Rmult_le_pos; [|lra]. unfold Rdiv. apply Rmult_le_pos; [lra|].
      left. apply Rinv_0_lt_compat. lra.
    + intros _. by eapply lookup_lt_Some.
    + intros _. done.
  - apply lookup_ge_None_1 in Hnext.
    repeat split; try lra; try nra.
    + intros [? ?]. done.
    + lia.
Qed.

Lemma calculateNavigationState_readings_in_range_witness :
  etaToNext (calculateNavigationState (mkPosition 0 0.5 90 0) exampleRoute 0) = 0.
Proof.
  destruct (calculateNavigationState_readings_in_range
              (mkPosition 0 0.5 90 0) exampleRoute 0) as (_ & _ & Hzero & _).
  apply Hzero. reflexivity.
Defined.

(** X5.  [saveRoute] appends to the saved list, also when the id is
    already there.  [deleteRoute] with the id of the route just saved
    leaves the earlier routes of another id, in their order: the earlier
    list itself when no saved route had that id. *)
Theorem deleteRoute_after_saveRoute (r : Route) (saved : option (list Route)) :
  getSavedRoutes (saveRoute r saved) = getSavedRoutes saved ++ [r] /\
  getSavedRoutes (deleteRoute (route_id r) (saveRoute r saved)) =
    filter (fun r' => route_id r' <> route_id r) (getSavedRoutes saved) /\
  ((forall r', r' ∈ getSavedRoutes saved -> route_id r' <> route_id r) ->
   getSavedRoutes (deleteRoute (route_id r) (saveRoute r saved)) = getSavedRoutes saved).
Proof.
  assert (getSavedRoutes (deleteRoute (route_id r) (saveRoute r saved)) =
          filter (fun r' => route_id r' <> route_id r) (getSavedRoutes saved)) as Hdel.
  { unfold deleteRoute, saveRoute. cbn [getSavedRoutes].
    rewrite filter_app, filter_cons_False, filter_nil, app_nil_r by (intros H; by apply H).
    done. }
  split; [done|]. split; [done|].
  rewrite Hdel. generalize (getSavedRoutes saved). intros rs.
  induction rs as [|r' rs IH]; intros Hfresh; [done|].
  rewrite filter_cons_True by (apply Hfresh; left).
  f_equal. apply IH. intros r'' Hin. apply Hfresh. by right.
Qed.

Lemma deleteRoute_after_saveRoute_witness :
  getSavedRoutes (deleteRoute (route_id exampleRoute) (saveRoute exampleRoute (Some [westRoute])))
  = [westRoute].
Proof.
  destruct (deleteRoute_after_saveRoute exampleRoute (Some [westRoute])) as (_ & _ & H).
  apply H. intros r' Hin. apply list_elem_of_singleton in Hin. subst r'.
  unfold westRoute, exampleRoute, generateRoute. cbn [route_id]. discriminate.
Defined.

(** [Math.floor] and [Math.round] by their bounds. *)
Lemma Int_part_bounds (x : R) : IZR (Int_part x) <= x < IZR (Int_part x) + 1.
Proof. pose proof (base_Int_part x). lra. Qed.

Lemma Int_part_unique (x : R) (k : Z) : IZR k <= x < IZR k + 1 -> Int_part x = k.
Proof. intros H. symmetry. apply Int_part_spec. lra. Qed.

Lemma round_bounds (x : R) : IZR (Js.round x) - / 2 <= x < IZR (Js.round x) + / 2.
Proof. unfold Js.round. pose proof (Int_part_bounds (x + / 2)). lra. Qed.

Lemma round_unique (x : R) (k : Z) : IZR k - / 2 <= x < IZR k + / 2 -> Js.round x = k.
Proof. intros H. unfold Js.round. apply Int_part_unique. lra. Qed.

(** The remainder of a dividend that is not negative. *)
Lemma rem_nonneg_floor (x m : R) :
  0 < m -> 0 <= x -> Js.rem x m = x - m * IZR (Js.floor (x / m)).
Proof.
  intros Hm Hx. unfold Js.rem, Js.trunc, Js.floor.
  rewrite decide_True; [done|].
  unfold Rdiv. apply Rmult_le_pos; [lra|]. left. by apply Rinv_0_lt_compat.
Qed.

(** X6.  For a duration that is not negative, [formatTime] prints an
    hour count and a minute count between 0 and 60 (60 included) that
    together are within half a minute of the duration, and leaves the
    hours out when they are 0. *)
Theorem formatTime_reads_back (minutes : R) :
  0 <= minutes ->
  exists hours mins : Z,
    (0 <= hours)%Z /\ (0 <= mins <= 60)%Z /\
    Rabs (IZR (60 * hours + mins) - minutes) <= / 2 /\
    formatTime minutes =
      if decide (hours = 0%Z) then pretty mins +:+ " min"
      else pretty hours +:+ "h " +:+ pretty mins +:+ "m".
Proof.
  intros Hm.
  exists (Js.floor (minutes / 60)), (Js.round (Js.rem minutes 60)).
  pose proof (Int_part_bounds (minutes / 60)) as Hfl. fold (Js.floor (minutes / 60)) in Hfl.
  pose proof (rem_nonneg_floor minutes 60 ltac:(lra) Hm) as Hrem.
  pose proof (round_bounds (Js.rem minutes 60)) as Hrd.
  set (h := Js.floor (minutes / 60)) in *.
  set (m := Js.round (Js.rem minutes 60)) in *.
  assert (0 <= Js.rem minutes 60 < 60) as Hrange by (rewrite Hrem; lra).
  assert (0 <= h)%Z as Hh.
  { assert (-1 < h)%Z; [|lia]. apply lt_IZR. lra. }
  assert (0 <= m <= 60)%Z as Hmm.
  { split.
    - assert (-1 < m)%Z; [|lia]. apply lt_IZR. lra.
    - assert (m < 61)%Z; [|lia]. apply lt_IZR. lra. }
  split; [exact Hh|]. split; [exact Hmm|]. split.
  - rewrite plus_IZR, mult_IZR. apply Rabs_le. lra.
  - unfold formatTime. cbv zeta. fold h m. done.
Qed.

Lemma formatTime_reads_back_witness :
  exists hours mins : Z,
    (0 <= hours)%Z /\ (0 <= mins <= 60)%Z /\
    Rabs (IZR (60 * hours + mins) - 90) <= / 2 /\
    formatTime 90 =
      if decide (hours = 0%Z) then pretty mins +:+ " min"
      else pretty hours +:+ "h " +:+ pretty mins +:+ "m".
Proof. apply (formatTime_reads_back 90). lra. Defined.

(** An index from 0 to 7 names a cardinal. *)
Lemma cardinals_lookup (k : Z) :
  (0 <= k < 8)%Z -> exists c, cardinals !! Z.to_nat k = Some c /\ cardinalAt k = c.
Proof.
  intros Hk. unfold cardinalAt. rewrite decide_False by lia.
  assert (Z.to_nat k < 8)%nat as Hlt by lia.
  destruct (lookup_lt_is_Some_2 cardinals (Z.to_nat k) Hlt) as [c Hc].
  exists c. by rewrite Hc.
Qed.

(** X7.  A bearing in the 45-degree sector centred on [45 * k] is named
    by the [k mod 8]-th cardinal when [k] is not negative; for a negative
    [k] that is no multiple of 8 the text ends in [undefined]. *)
Theorem formatBearing_names_the_sector (degrees : R) (k : Z) :
  45 * IZR k - 22.5 <= degrees < 45 * IZR k + 22.5 ->
  ((0 <= k)%Z ->
     exists c, cardinals !! Z.to_nat (k mod 8) = Some c /\
       formatBearing degrees = pretty (Js.round degrees) +:+ degreeMark +:+ c) /\
  ((k < 0)%Z -> (k mod 8 <> 0)%Z ->
     formatBearing degrees =
       pretty (Js.round degrees) +:+ degreeMark +:+ "undefined").
Proof.
  intros Hsector.
  assert (Js.round (degrees / 45) = k) as Hround by (apply round_unique; lra).
  unfold formatBearing. cbv zeta. rewrite Hround. split.
  - intros Hk. rewrite Z.rem_mod_nonneg by lia.
    destruct (cardinals_lookup (k mod 8)) as (c & Hc & ->); [|by exists c].
    apply Z.mod_pos_bound. lia.
  - intros Hk Hmod. unfold cardinalAt. rewrite decide_True; [done|].
    pose proof (Z.rem_bound_pos_neg k 8 ltac:(lia) ltac:(lia)) as [_ Hle].
    assert (Z.rem k 8 <> 0)%Z; [|lia].
    intros Hz. apply Hmod. apply Z.rem_divide in Hz; [|lia].
    by apply Z.mod_divide.
Qed.

Lemma formatBearing_names_the_sector_witness :
  (exists c, cardinals !! Z.to_nat (2 mod 8) = Some c /\
     formatBearing 90 = pretty (Js.round 90) +:+ degreeMark +:+ c) /\
  formatBearing (-45) = pretty (Js.round (-45)) +:+ degreeMark +:+ "undefined".
Proof.
  split.
  - apply (formatBearing_names_the_sector 90 2); [lra | lia].
  - apply (formatBearing_names_the_sector (-45) (-1)); [lra | lia | done].
Defined.

End RoutePlanningBehaviour.

(** ** Nautical chart: geometry, analysis, parsing and cache *)

Section ChartBehaviour.

Import NauticalChart HazardSpec ChartSpec.

(** The clamped projection minimises the squared distance over the leg. *)
Lemma clamped_projection_minimal (px py dx dy s : R) :
  dx * dx + dy * dy <> 0 -> 0 <= s <= 1 ->
  let t := Rmax 0 (Rmin 1 ((px * dx + py * dy) / (dx * dx + dy * dy))) in
  0 <= t <= 1 /\
  (px - t * dx) * (px - t * dx) + (py - t * dy) * (py - t * dy)
  <= (px - s * dx) * (px - s * dx) + (py - s * dy) * (py - s * dy).
Proof.
  intros HL Hs. cbv zeta.
  set (L := dx * dx + dy * dy) in *.
  assert (0 < L) as HLpos by (subst L; nra).
  set (q := px * dx + py * dy).
  set (u := q / L).
  assert (q = u * L) as Hq by (subst u; field; lra).
  set (t := Rmax 0 (Rmin 1 u)).
  assert (0 <= t <= 1) as Ht.
  { subst t. unfold Rmax, Rmin. repeat destruct (Rle_dec _ _); lra. }
  split; [exact Ht|].
  assert ((s - t) * (s + t - 2 * u) >= 0) as Hprod.
  { subst t. unfold Rmax, Rmin.
    destruct (Rle_dec 1 u) as [H1|H1].
    - destruct (Rle_dec 0 1); [|lra].
      assert (0 <= (1 - s) * (2 * u - 1 - s)) by (apply Rmult_le_pos; lra). lra.
    - destruct (Rle_dec 0 u) as [H0|H0].
      + pose proof (Rle_0_sqr (s - u)) as Hsq. unfold Rsqr in Hsq. lra.
      + assert (0 <= s * (s - 2 * u)) by (apply Rmult_le_pos; lra). lra. }
  assert ((px - s * dx) * (px - s * dx) + (py - s * dy) * (py - s * dy)
          - ((px - t * dx) * (px - t * dx) + (py - t * dy) * (py - t * dy))
          = (s - t) * (s + t - 2 * u) * L) as Hdiff.
  { replace ((s - t) * (s + t - 2 * u) * L)
      with ((s * s - t * t) * L - 2 * (s - t) * (u * L)) by ring.
    rewrite <- Hq. subst q L. ring. }
  nra.
Qed.

(** X8.  [distanceFromLineSegment] is the least distance, in the plane
    of [toMeters], from the point to the points of the leg: it is the
    distance to one of them, and no point of the leg is nearer. *)
Theorem distanceFromLineSegment_is_least (point lineStart lineEnd : LatLon) :
  (exists t, 0 <= t <= 1 /\
     distanceFromLineSegment point lineStart lineEnd =
     planarDistance (projected point)
       (pointOnLeg (projected lineStart) (projected lineEnd) t)) /\
  (forall s, 0 <= s <= 1 ->
     distanceFromLineSegment point lineStart lineEnd <=
     planarDistance (projected point)
       (pointOnLeg (projected lineStart) (projected lineEnd) s)).
Proof.
  unfold distanceFromLineSegment, planarDistance, pointOnLeg, projected. cbv zeta.
  set (p := toMeters (lat point) (lon point)).
  set (a := toMeters (lat lineStart) (lon lineStart)).
  set (b := toMeters (lat lineEnd) (lon lineEnd)).
  cbn [x y].
  case_decide as HL.
  - assert (x b - x a = 0 /\ y b - y a = 0) as [Hx Hy]
      by (apply Rplus_sqr_eq_0; unfold Rsqr; exact HL).
    rewrite Hx, Hy. split.
    + exists 0. split; [lra|]. f_equal. ring.
    + intros s _. right. f_equal. ring.
  - split.
    + destruct (clamped_projection_minimal (x p - x a) (y p - y a)
                  (x b - x a) (y b - y a) 0 HL ltac:(lra)) as [Ht _].
      eexists. split; [exact Ht|]. f_equal.
    + intros s Hs.
      destruct (clamped_projection_minimal (x p - x a) (y p - y a)
                  (x b - x a) (y b - y a) s HL Hs) as [_ Hle].
      apply sqrt_le_1_alt.
      match goal with |- ?l <= ?r =>
        match type of Hle with ?l' <= ?r' =>
          replace l with l' by ring; replace r with r' by ring
        end
      end.
      exact Hle.
Qed.


Lemma distanceFromLineSegment_is_least_witness :
  distanceFromLineSegment (mkLatLon 1 0.5) (mkLatLon 0 0) (mkLatLon 0 1) <=
  planarDistance (projected (mkLatLon 1 0.5))
    (pointOnLeg (projected (mkLatLon 0 0)) (projected (mkLatLon 0 1)) 0).
Proof.
  apply (distanceFromLineSegment_is_least (mkLatLon 1 0.5) (mkLatLon 0 0) (mkLatLon 0 1)).
  lra.
Defined.

(** [Math.max] and [Math.min] bound the numbers they are taken of. *)
Lemma fold_left_Rmax_ge (l : list R) (v0 : R) :
  v0 <= fold_left Rmax l v0 /\ forall v, v ∈ l -> v <= fold_left Rmax l v0.
Proof.
  revert v0. induction l as [|u l IH]; intros v0; simpl.
  - split; [lra|]. intros v Hv. by apply elem_of_nil in Hv.
  - destruct (IH (Rmax v0 u)) as [H0 Hl].
    pose proof (Rmax_l v0 u). pose proof (Rmax_r v0 u).
    split; [lra|]. intros v Hv. apply elem_of_cons in Hv as [->|Hv]; [lra|by apply Hl].
Qed.

Lemma fold_left_Rmin_le (l : list R) (v0 : R) :
  fold_left Rmin l v0 <= v0 /\ forall v, v ∈ l -> fold_left Rmin l v0 <= v.
Proof.
  revert v0. induction l as [|u l IH]; intros v0; simpl.
  - split; [lra|]. intros v Hv. by apply elem_of_nil in Hv.
  - destruct (IH (Rmin v0 u)) as [H0 Hl].
    pose proof (Rmin_l v0 u). pose proof (Rmin_r v0 u).
    split; [lra|]. intros v Hv. apply elem_of_cons in Hv as [->|Hv]; [lra|by apply Hl].
Qed.

Lemma maxOf_ge (xs : list R) (v : R) : v ∈ xs -> v <= maxOf xs.
Proof.
  destruct xs as [|u us]; [intros Hv; by apply elem_of_nil in Hv|].
  intros Hv. unfold maxOf. destruct (fold_left_Rmax_ge us u) as [H0 Hl].
  apply elem_of_cons in Hv as [->|Hv]; [done|by apply Hl].
Qed.

Lemma minOf_le (xs : list R) (v : R) : v ∈ xs -> minOf xs <= v.
Proof.
  destruct xs as [|u us]; [intros Hv; by apply elem_of_nil in Hv|].
  intros Hv. unfold minOf. destruct (fold_left_Rmin_le us u) as [H0 Hl].
  apply elem_of_cons in Hv as [->|Hv]; [done|by apply Hl].
Qed.

(** X9.  The box that [analyzeRouteHazards] asks hazards for holds every
    waypoint with at least 0.1 degree to spare on each side. *)
Theorem routeBoundingBox_pads_every_waypoint (wps : list LatLon) (w : LatLon) :
  w ∈ wps ->
  let bbox := routeBoundingBox wps in
  south bbox + 0.1 <= lat w <= north bbox - 0.1 /\
  west bbox + 0.1 <= lon w <= east bbox - 0.1.
Proof.
  intros Hw. cbv zeta. unfold routeBoundingBox. cbn [north south east west].
  pose proof (maxOf_ge (map lat wps) (lat w) ltac:(by apply list_elem_of_fmap_2)).
  pose proof (minOf_le (map lat wps) (lat w) ltac:(by apply list_elem_of_fmap_2)).
  pose proof (maxOf_ge (map lon wps) (lon w) ltac:(by apply list_elem_of_fmap_2)).
  pose proof (minOf_le (map lon wps) (lon w) ltac:(by apply list_elem_of_fmap_2)).
  lra.
Qed.

Lemma routeBoundingBox_pads_every_waypoint_witness :
  south (routeBoundingBox exampleLeg) + 0.1 <= 0 <= north (routeBoundingBox exampleLeg) - 0.1 /\
  west (routeBoundingBox exampleLeg) + 0.1 <= 1 <= east (routeBoundingBox exampleLeg) - 0.1.
Proof.
  apply (routeBoundingBox_pads_every_waypoint exampleLeg (mkLatLon 0 1)).
  unfold exampleLeg. apply elem_of_cons. right. apply elem_of_cons. by left.
Defined.






(** X11.  For a draft that is not negative, [requiresRerouting] on the
    result of [analyzeRouteHazards] is the negation of its [isSafe]. *)
Theorem requiresRerouting_is_unsafe_verdict
  (fetch : BoundingBox -> list NauticalHazard) (wps : list LatLon)
  (vesselDraft safetyMargin : R) :
  0 <= vesselDraft ->
  requiresRerouting (analyzeRouteHazards fetch wps vesselDraft safetyMargin) =
  negb (isSafe (analyzeRouteHazards fetch wps vesselDraft safetyMargin)).
Proof.
  intros Hdraft. unfold analyzeRouteHazards, requiresRerouting.
  set (a := analyzeFetched _ _ _ _).
  destruct (isSafe a) eqn:Hsafe; [|done].
  cbn [negb orb].
  subst a. unfold analyzeFetched in *. cbn [isSafe hazards minDepth] in *.
  apply andb_true_iff in Hsafe as [Hcrit Hdepth].
  apply bool_decide_eq_true in Hcrit.
  apply length_zero_iff_nil in Hcrit.
  assert (existsb (fun rh => bool_decide (isCritical rh))
            (routeHazards (scanRoute safetyMargin wps (fetch (routeBoundingBox wps))))
          = false) as ->.
  { apply not_true_is_false. intros Hex. apply existsb_exists in Hex as (rh & Hin & Hc).
    apply bool_decide_eq_true in Hc.
    assert (rh ∈ filter isCritical
              (routeHazards (scanRoute safetyMargin wps (fetch (routeBoundingBox wps)))))
      as Hf by (apply list_elem_of_filter; split; [done|by apply list_elem_of_In]).
    rewrite Hcrit in Hf. by apply elem_of_nil in Hf. }
  cbn [orb]. destruct (scanMinDepth _) as [m|]; [|done].
  apply bool_decide_eq_true in Hdepth. apply bool_decide_eq_false.
  unfold Js.ge in Hdepth. destruct m; cbn in *; first [tauto | lra].
Qed.

Lemma requiresRerouting_is_unsafe_verdict_witness :
  requiresRerouting (analyzeRouteHazards (fun _ => [midLegHazard]) exampleLeg 2 500) =
  negb (isSafe (analyzeRouteHazards (fun _ => [midLegHazard]) exampleLeg 2 500)).
Proof.
  apply (requiresRerouting_is_unsafe_verdict (fun _ => [midLegHazard]) exampleLeg 2 500).
  lra.
Defined.

(** The two rows of the table that are critical. *)
Lemma classifySeamark_critical_iff seamarkType tags :
  cl_severity (classifySeamark seamarkType tags) = critical <->
  seamarkType = "restricted_area" \/ seamarkType = "military_area".
Proof.
  unfold classifySeamark. split.
  - destruct (classifications tags !! seamarkType) as [c|] eqn:E; simpl; [|done].
    apply elem_of_list_to_map_2 in E.
    repeat (apply elem_of_cons in E as [E|E];
            [simplify_eq; simpl; try case_decide; by eauto|]).
    by apply elem_of_nil in E.
  - intros [-> | ->]; reflexivity.
Qed.

Lemma truthy_Some (v : option string) :
  truthy v = true -> exists s, v = Some s /\ s <> "".
Proof.
  destruct v as [s|]; simpl; [|done].
  intros H. apply bool_decide_eq_true in H. eauto.
Qed.

Lemma truthyNumber_Some (v : option R) :
  truthyNumber v = true -> exists r, v = Some r /\ r <> 0.
Proof.
  destruct v as [r|]; simpl; [|done].
  intros H. apply bool_decide_eq_true in H. eauto.
Qed.

(** X12.  Every hazard that [parseSeamarkData] returns comes from an
    element with a non-empty [seamark:type] tag, carries the id of that
    element and the source [osm], and is critical exactly for the types
    [restricted_area] and [military_area]; it is either a node whose
    latitude and longitude are both other than 0, with a radius and no
    polygon, or a way with its geometry as polygon and no radius. *)
Theorem parseSeamarkData_provenance
  (parseFloat : string -> Js.Number) (elements : option (list Element)) (h : NauticalHazard) :
  h ∈ parseSeamarkData parseFloat elements ->
  exists es e tags seamarkType,
    elements = Some es /\ e ∈ es /\ el_tags e = Some tags /\
    tags !! "seamark:type" = Some seamarkType /\ seamarkType <> "" /\
    hz_id h = "osm-" +:+ pretty (el_id e) /\ source h = osm /\
    (severity h = critical <->
     seamarkType = "restricted_area" \/ seamarkType = "military_area") /\
    ((el_type e = "node" /\ el_lat e = Some (hz_lat h) /\ el_lon e = Some (hz_lon h) /\
      hz_lat h <> 0 /\ hz_lon h <> 0 /\ polygon h = None /\ is_Some (radius h)) \/
     (el_type e = "way" /\ is_Some (geometry e) /\ polygon h = geometry e /\
      radius h = None)).
Proof.
  destruct elements as [es|]; simpl; [|intros Hin; by apply elem_of_nil in Hin].
  intros Hin. apply list_elem_of_In, in_flat_map in Hin as (e & He & Hin).
  apply list_elem_of_In in Hin, He. unfold parseElement in Hin. cbv zeta in Hin.
  destruct (truthy _) eqn:Htype; [|by apply elem_of_nil in Hin].
  apply truthy_Some in Htype as (seamarkType & Htype & Hne).
  destruct (el_tags e) as [tags|] eqn:Htags; cbn [default] in *;
    [|by rewrite lookup_empty in Htype].
  rewrite Htype in Hin. cbn [default] in Hin. unfold Datatypes.id in Hin.
  exists es, e, tags, seamarkType.
  do 5 (split; [done|]).
  destruct (_ && _) eqn:Hnode.
  - apply list_elem_of_singleton in Hin. subst h.
    cbn [hz_id source severity hz_lat hz_lon polygon radius].
    apply andb_true_iff in Hnode as [Hnode Hlon].
    apply andb_true_iff in Hnode as [Hnode Hlat].
    apply bool_decide_eq_true in Hnode.
    apply truthyNumber_Some in Hlat as (la & -> & Hla).
    apply truthyNumber_Some in Hlon as (lo & -> & Hlo).
    do 2 (split; [done|]). split; [apply classifySeamark_critical_iff|].
    left. cbn [default]. by eauto 10.
  - destruct (geometry e) as [points|] eqn:Hg; [|by apply elem_of_nil in Hin].
    destruct (bool_decide (el_type e = "way")) eqn:Hway; [|by apply elem_of_nil in Hin].
    apply bool_decide_eq_true in Hway.
    apply list_elem_of_singleton in Hin. subst h.
    cbn [hz_id source severity hz_lat hz_lon polygon radius].
    do 2 (split; [done|]). split; [apply classifySeamark_critical_iff|].
    right. by eauto 10.
Qed.

(** The example node parses to one hazard. *)
Lemma parseElement_rockNode (parseFloat : string -> Js.Number) :
  exists h, parseSeamarkData parseFloat (Some [rockNode]) = [h].
Proof.
  unfold parseSeamarkData, parseElement, rockNode. cbn [flat_map el_tags default].
  cbv zeta. unfold Datatypes.id.
  rewrite lookup_singleton_eq. cbn [truthy el_type el_lat el_lon truthyNumber].
  rewrite (bool_decide_eq_true_2 ("rock" <> "")) by discriminate.
  rewrite (bool_decide_eq_true_2 ("node" = "node")) by reflexivity.
  rewrite (bool_decide_eq_true_2 (1 <> 0)) by lra.
  rewrite (bool_decide_eq_true_2 (2 <> 0)) by lra.
  cbn [andb app]. eauto.
Qed.

Lemma parseSeamarkData_provenance_witness :
  exists h, h ∈ parseSeamarkData (fun _ => Js.NaN) (Some [rockNode]) /\ source h = osm.
Proof.
  destruct (parseElement_rockNode (fun _ => Js.NaN)) as [h Hh].
  exists h.
  assert (h ∈ parseSeamarkData (fun _ => Js.NaN) (Some [rockNode])) as Hin
    by (rewrite Hh; left).
  split; [exact Hin|].
  destruct (parseSeamarkData_provenance (fun _ => Js.NaN) (Some [rockNode]) h Hin)
    as (es & e & tags & t & _ & _ & _ & _ & _ & _ & Hsource & _).
  exact Hsource.
Defined.

(** A hazard whose depth JSON can write comes back from the cache as it
    went in. *)
Lemma hazardThroughJSON_finite (hs : list NauticalHazard) :
  finiteDepths hs -> hazardThroughJSON <$> hs = hs.
Proof.
  induction hs as [|h hs IH]; intros Hfin; [done|].
  rewrite fmap_cons. f_equal.
  - destruct h as [i t la lo r p d ds sv so]. unfold hazardThroughJSON.
    cbn [hz_id hz_type hz_lat hz_lon radius polygon depth description severity source].
    f_equal. destruct d as [[n|]|]; [|done|done].
    destruct (Hfin _ n ltac:(left) eq_refl) as [x ->]. done.
  - apply IH. intros h' n Hin. apply (Hfin h' n). by right.
Qed.

(** X13.  After [cacheNauticalData], [getCachedNauticalData] gives the
    cached hazards back for every box with the same south and west sides,
    while the snapshot is less than seven days (604800000 ms) old, and
    nothing from then on; a box with another key reads what it read
    before.  The hazards come back as JSON writes them: a depth that is
    [NaN] or infinite comes back as [null], and hazards without such a
    depth come back as they were cached. *)
Theorem cached_snapshot_served_for_seven_days
  (stored now : Z) (bbox bbox' : BoundingBox) (hazards : list NauticalHazard)
  (store : gmap string Cached) :
  let store' := cacheNauticalData stored bbox hazards store in
  (south bbox' = south bbox -> west bbox' = west bbox ->
   getCachedNauticalData now bbox' store' =
     if decide (now - stored < 604800000)%Z
     then Some (hazardThroughJSON <$> hazards) else None) /\
  (finiteDepths hazards ->
   south bbox' = south bbox -> west bbox' = west bbox ->
   getCachedNauticalData now bbox' store' =
     if decide (now - stored < 604800000)%Z then Some hazards else None) /\
  (cacheKey bbox' <> cacheKey bbox ->
   getCachedNauticalData now bbox' store' = getCachedNauticalData now bbox' store).
Proof.
  cbv zeta.
  assert (south bbox' = south bbox -> west bbox' = west bbox ->
          getCachedNauticalData now bbox' (cacheNauticalData stored bbox hazards store) =
          if decide (now - stored < 604800000)%Z
          then Some (hazardThroughJSON <$> hazards) else None) as Hread.
  { intros Hs Hw. unfold getCachedNauticalData, cacheNauticalData.
    assert (cacheKey bbox' = cacheKey bbox) as -> by (unfold cacheKey; by rewrite Hs, Hw).
    rewrite lookup_insert_eq. cbv zeta.
    replace (7 * 24 * 60 * 60 * 1000)%Z with 604800000%Z by lia. done. }
  split; [exact Hread|]. split.
  - intros Hfin Hs Hw. rewrite (Hread Hs Hw).
    by rewrite (hazardThroughJSON_finite hazards Hfin).
  - intros Hkey. unfold getCachedNauticalData, cacheNauticalData.
    by rewrite lookup_insert_ne.
Qed.

Lemma midLegHazard_finiteDepths : finiteDepths [midLegHazard].
Proof.
  intros h n Hin Hd. apply list_elem_of_singleton in Hin. subst h. discriminate.
Qed.

Lemma cached_snapshot_served_for_seven_days_witness :
  getCachedNauticalData 604799999 widerBox
    (cacheNauticalData 0 exampleBox [midLegHazard] ∅) = Some [midLegHazard] /\
  getCachedNauticalData 604800000 widerBox
    (cacheNauticalData 0 exampleBox [midLegHazard] ∅) = None.
Proof.
  split.
  - destruct (cached_snapshot_served_for_seven_days 0 604799999 exampleBox widerBox
                [midLegHazard] ∅) as (_ & H & _).
    rewrite (H midLegHazard_finiteDepths eq_refl eq_refl).
    by rewrite decide_True by lia.
  - destruct (cached_snapshot_served_for_seven_days 0 604800000 exampleBox widerBox
                [midLegHazard] ∅) as (_ & H & _).
    rewrite (H midLegHazard_finiteDepths eq_refl eq_refl).
    by rewrite decide_False by lia.
Defined.



End ChartBehaviour.

(** ** The view: avoiding the critical hazards of an analysed route *)

Section FixRoute.

Import RoutePlanning NauticalChart RoutePlanningView RouteSpec HazardSpec ViewSpec.






End FixRoute.

(** ** The navigation controller: events, errors, restarts and buffers *)

Section ControllerBehaviour.

Import RoutePlanning OfflineNavigation NavigationSpec RouteSpec ControllerSpec.

(** Symbolic execution of the monadic code on an opened world. *)
Ltac run :=
  cbv beta iota zeta delta
    [bind ret this window update updateBrowser perform when emit emitAlert
     clearWatch watchPosition addOrientationListener removeOrientationListener
     bindHandleOrientation exec fst snd self browser trace
     watchId route currentWaypointIndex isNavigating config listeners
     navigationHistory currentHeading currentSpeed smoothedSpeeds
     set_watchId set_route set_currentWaypointIndex set_isNavigating
     set_listeners set_navigationHistory set_currentHeading set_currentSpeed
     set_smoothedSpeeds set_watches set_orientationListeners set_storedRoute
     set_storedPositions hasGeolocation hasDeviceOrientationEvent
     orientationPermission hasVibrate hasSpeechSynthesis activeWatches
     nextWatchId orientationListeners nextBound storedActiveRoute
     storedNavigationStartTime storedNavigationPositions
     enableVibration enableVoiceAlerts waypointThresholdNM
     feedback destinationAlert andb negb].

Ltac open_world w :=
  destruct w as [[wid rt idx nav [ui thr voice vibr ssf] ls hist hd sp sm]
                 [geo ori perm vib speech watches nextW ols nextB sr st cp] t].

(** X16.  The controller keeps one callback for an event: registering a
    second one replaces the first, [off] leaves none, and registering for
    one event does not change who is reached for another. *)
Theorem on_keeps_one_listener_per_event
  (event other : string) (first second : Callback) (data : Payload) (w : World) :
  trace (exec (on event first >> on event second >> emit event data) w) =
    trace w ++ [Emit event data (Some second)] /\
  trace (exec (on event first >> off event >> emit event data) w) =
    trace w ++ [Emit event data None] /\
  (other <> event ->
   trace (exec (on event first >> emit other data) w) =
     trace w ++ [Emit other data (listeners (self w) !! other)]).
Proof.
  open_world w. unfold on, off. run. repeat split.
  - by rewrite lookup_insert_eq.
  - by rewrite lookup_delete_eq.
  - intros Hne. by rewrite lookup_insert_ne.
Qed.

Lemma on_keeps_one_listener_per_event_witness :
  trace (exec (on "alert" 1%nat >> emit "navigationUpdate" NavigationStopped) freshWorld)
  = trace freshWorld ++
    [Emit "navigationUpdate" NavigationStopped
       (listeners (self freshWorld) !! "navigationUpdate")].
Proof.
  apply (on_keeps_one_listener_per_event "alert" "navigationUpdate" 1%nat 2%nat).
  discriminate.
Defined.

(** One distance is logged from two positions on, none before. *)
Lemma deadReckoning_cases (h : list HistoryEntry) :
  ((length h < 2)%nat -> deadReckoning h = []) /\
  ((2 <= length h)%nat -> exists d, deadReckoning h = [DeadReckoningLog d]).
Proof.
  unfold deadReckoning. split; intros Hlen.
  - by rewrite decide_True.
  - rewrite decide_False by lia.
    destruct (last h) as [l|] eqn:Hl.
    2: { apply last_None in Hl. subst h. simpl in Hlen. lia. }
    destruct (lookup_lt_is_Some_2 h (length h - 2) ltac:(lia)) as [p ->]. eauto.
Qed.

(** X17.  [handlePositionError] changes neither the controller nor the
    browser: it emits one warning alert of type gps-error and, when the
    history holds at least two positions, logs one dead-reckoning
    distance; with fewer positions it logs none. *)
Theorem handlePositionError_keeps_navigating
  (code : PositionErrorCode) (now : Z) (w : World) :
  let w' := exec (handlePositionError code now) w in
  let h := navigationHistory (self w) in
  self w' = self w /\ browser w' = browser w /\
  (exists text,
     trace w' =
       trace w ++
       Emit "alert" (Alert (gpsErrorAlert text now)) (listeners (self w) !! "alert")
       :: deadReckoning h) /\
  ((length h < 2)%nat -> deadReckoning h = []) /\
  ((2 <= length h)%nat -> exists d, deadReckoning h = [DeadReckoningLog d]).
Proof.
  cbv zeta. split; [|split; [|split; [|apply deadReckoning_cases]]].
  - open_world w. unfold handlePositionError, useDeadReckoning. run.
    destruct (bool_decide (0 < length hist)%nat); run; [|done].
    case_decide; run; [done|].
    destruct (last hist); [destruct (hist !! _)|]; reflexivity.
  - open_world w. unfold handlePositionError, useDeadReckoning. run.
    destruct (bool_decide (0 < length hist)%nat); run; [|done].
    case_decide; run; [done|].
    destruct (last hist); [destruct (hist !! _)|]; reflexivity.
  - open_world w. unfold handlePositionError, useDeadReckoning, deadReckoning, gpsErrorAlert.
    run. eexists.
    case_bool_decide as Hpos; run.
    + case_decide; run; [reflexivity|].
      destruct (last hist); [destruct (hist !! _)|]; run;
        rewrite <- ?app_assoc, ?app_nil_r; reflexivity.
    + rewrite decide_True by lia. reflexivity.
Qed.

Lemma handlePositionError_keeps_navigating_witness :
  deadReckoning (navigationHistory (self startedWorld)) = [].
Proof.
  apply (handlePositionError_keeps_navigating TIMEOUT 2 startedWorld).
  vm_compute. lia.
Defined.

(** One call of [skipToNextWaypoint] with a route. *)
Lemma skipToNextWaypoint_run (w : World) (r : Route) :
  route (self w) = Some r ->
  exec skipToNextWaypoint w =
  if decide (currentWaypointIndex (self w) < length (waypoints r) - 2)%nat then
    mkWorld (set_currentWaypointIndex (S (currentWaypointIndex (self w))) (self w))
      (browser w)
      (trace w ++
       [Emit "waypointSkipped"
          (WaypointSkipped (waypoints r !! S (currentWaypointIndex (self w))))
          (listeners (self w) !! "waypointSkipped")])
  else w.
Proof.
  open_world w. cbn [self route]. intros ->. unfold skipToNextWaypoint. run.
  case_decide; reflexivity.
Qed.

(** X18.  [skipToNextWaypoint] called [k] times moves the cursor by [k]
    but not past the index [length - 2], changes nothing else of the
    navigation or the browser, and a cursor that had a next waypoint
    keeps one. *)
Theorem skipToNextWaypoint_stops_before_destination
  (k : nat) (w : World) (r : Route) :
  route (self w) = Some r ->
  let w' := exec (times k skipToNextWaypoint) w in
  let i := currentWaypointIndex (self w) in
  currentWaypointIndex (self w') =
    Nat.max i (Nat.min (i + k) (length (waypoints r) - 2)) /\
  route (self w') = Some r /\
  isNavigating (self w') = isNavigating (self w) /\
  browser w' = browser w /\
  ((S i < length (waypoints r))%nat ->
   (S (currentWaypointIndex (self w')) < length (waypoints r))%nat).
Proof.
  cbv zeta. revert w. induction k as [|k IH]; intros w Hr.
  - cbn [times]. unfold exec, ret. cbn [snd]. repeat split; try done; lia.
  - cbn [times]. rewrite exec_bind.
    pose proof (skipToNextWaypoint_run w r Hr) as Hstep.
    set (w1 := exec skipToNextWaypoint w) in *.
    assert (route (self w1) = Some r /\ isNavigating (self w1) = isNavigating (self w) /\
            browser w1 = browser w /\
            currentWaypointIndex (self w1) =
              if decide (currentWaypointIndex (self w) < length (waypoints r) - 2)%nat
              then S (currentWaypointIndex (self w))
              else currentWaypointIndex (self w)) as (Hr1 & Hn1 & Hb1 & Hi1).
    { rewrite Hstep. case_decide; [|done]. destruct w as [[] ? ?]. by simpl in *. }
    destruct (IH w1 Hr1) as (Hi & Hr' & Hn & Hb & Hnext).
    rewrite Hi, Hr', Hn, Hb, Hn1, Hb1, Hi1.
    repeat split; try done; case_decide; lia.
Qed.

Lemma skipToNextWaypoint_stops_before_destination_witness :
  currentWaypointIndex (self (exec (times 3 skipToNextWaypoint) startedWorld)) = 0%nat.
Proof.
  destruct (skipToNextWaypoint_stops_before_destination 3 startedWorld exampleRoute)
    as [H _]; [reflexivity|].
  rewrite H. reflexivity.
Defined.

(** X19.  Without geolocation [startNavigation] fails, and yet it leaves
    the controller navigating on the new route at cursor 0, with no watch
    registered by it, the route not stored, and no event other than those
    of stopping an earlier navigation. *)
Theorem startNavigation_without_geolocation (r : Route) (now : Z) (w : World) :
  hasGeolocation (browser w) = false ->
  let started := fst (startNavigation r now w) in
  let w' := exec (startNavigation r now) w in
  started = false /\
  isNavigating (self w') = true /\ route (self w') = Some r /\
  currentWaypointIndex (self w') = 0%nat /\
  watchId (self w') = (if isNavigating (self w) then None else watchId (self w)) /\
  storedActiveRoute (browser w') = storedActiveRoute (browser w) /\
  trace w' =
    trace w ++
    (if isNavigating (self w) then
       [Emit "navigationStopped" NavigationStopped
          (listeners (self w) !! "navigationStopped");
        ConsoleLog "Navigation Stopped"]
     else []).
Proof.
  open_world w. cbn [browser hasGeolocation]. intros ->. cbv zeta.
  unfold startNavigation, stopNavigation, requestPermissions.
  destruct nav, wid as [id0|], ori; run;
    (split_and!; try reflexivity;
     rewrite <- ?app_assoc, ?app_nil_r; reflexivity).
Qed.

Lemma startNavigation_without_geolocation_witness :
  fst (startNavigation exampleRoute 1 (mkWorld newSystem noGpsBrowser [])) = false /\
  isNavigating (self (exec (startNavigation exampleRoute 1)
                        (mkWorld newSystem noGpsBrowser []))) = true.
Proof.
  destruct (startNavigation_without_geolocation exampleRoute 1
              (mkWorld newSystem noGpsBrowser [])) as (H1 & H2 & _); [reflexivity|].
  split; [exact H1 | exact H2].
Defined.

(** X20.  [startNavigation] on a controller that holds an active watch
    registers a fresh one.  It clears the old watch when the controller
    was navigating; when it was paused the old watch stays active, also
    after a later [stopNavigation]. *)
Theorem startNavigation_clears_old_watch_only_when_navigating
  (r : Route) (now : Z) (w : World) (id : nat) :
  hasGeolocation (browser w) = true ->
  watchId (self w) = Some id ->
  id ∈ activeWatches (browser w) ->
  watchesIssued (browser w) ->
  let w' := exec (startNavigation r now) w in
  let fresh := nextWatchId (browser w) in
  watchId (self w') = Some fresh /\
  fresh ∈ activeWatches (browser w') /\
  (isNavigating (self w) = true ->
   activeWatches (browser w') = {[ fresh ]} ∪ activeWatches (browser w) ∖ {[ id ]}) /\
  (isNavigating (self w) = false ->
   activeWatches (browser w') = {[ fresh ]} ∪ activeWatches (browser w) /\
   id ∈ activeWatches (browser (exec stopNavigation w'))).
Proof.
  open_world w. cbn [browser self hasGeolocation watchId activeWatches isNavigating
                     nextWatchId].
  intros -> -> Hin Hissued. cbv zeta.
  assert (id <> nextW) as Hne.
  { specialize (Hissued id Hin). cbn [nextWatchId] in Hissued. lia. }
  unfold startNavigation, stopNavigation, requestPermissions, startGPSTracking,
    startCompassTracking, cacheRouteData.
  destruct nav, ori, perm; run; repeat case_decide; run;
    (split; [reflexivity|split; [set_solver|split;
       [intros Hnav; first [discriminate | reflexivity]
       |intros Hnav; first [discriminate | split; [reflexivity | set_solver]]]]]).
Qed.

(** The paused example holds watch 1, the only one handed out. *)
Lemma pausedWorld_watch :
  hasGeolocation (browser pausedWorld) = true /\
  watchId (self pausedWorld) = Some 1%nat /\
  isNavigating (self pausedWorld) = false /\
  activeWatches (browser pausedWorld) = {[ 1%nat ]} ∪ ∅ /\
  nextWatchId (browser pausedWorld) = 2%nat.
Proof. repeat split. Qed.

Lemma startNavigation_clears_old_watch_only_when_navigating_witness :
  watchId (self (exec (startNavigation exampleRoute 2) pausedWorld)) = Some 2%nat /\
  1%nat ∈ activeWatches
            (browser (exec stopNavigation
                        (exec (startNavigation exampleRoute 2) pausedWorld))).
Proof.
  destruct pausedWorld_watch as (Hgeo & Hid & Hnav & Hwatches & Hnext).
  destruct (startNavigation_clears_old_watch_only_when_navigating
              exampleRoute 2 pausedWorld 1 Hgeo Hid) as (H1 & _ & _ & H4).
  - rewrite Hwatches. set_solver.
  - intros id. rewrite Hwatches, Hnext. intros Hin.
    apply elem_of_union in Hin as [Hin|Hin]; [|by apply elem_of_empty in Hin].
    apply elem_of_singleton in Hin. lia.
  - split; [by rewrite H1, Hnext | by apply H4].
Defined.

(** Removing the unbound handler removes no bound copy of it. *)
Lemma filter_bound_listeners (ols : list (OrientationListener * bool)) (capture : bool) :
  (forall l c, (l, c) ∈ ols -> exists n, l = BoundHandler n) ->
  filter (fun e => e <> (FieldHandler, capture)) ols = ols.
Proof.
  induction ols as [|[l c] ols IH]; intros Hb; [done|].
  rewrite filter_cons_True.
  - f_equal. apply IH. intros l' c' Hin. apply (Hb l' c'). by right.
  - destruct (Hb l c ltac:(left)) as [n ->]. discriminate.
Qed.

(** A compass reading handed to a non-empty list of listeners. *)
Lemma forEachListener_handleOrientation registered a w :
  registered <> [] ->
  exec (forEachListener registered (handleOrientation (Some a))) w =
  mkWorld (set_currentHeading a (self w)) (browser w)
    (trace w ++
     map (fun _ => Emit "headingUpdate" (HeadingUpdate a)
                     (listeners (self w) !! "headingUpdate")) registered).
Proof.
  revert w. induction registered as [|e rest IH]; intros w Hne; [done|].
  cbn [forEachListener map]. rewrite exec_bind.
  destruct rest as [|e' rest].
  - open_world w. unfold handleOrientation. run. reflexivity.
  - rewrite IH by done. open_world w. unfold handleOrientation. run.
    rewrite <- app_assoc. reflexivity.
Qed.

(** The listeners after [startNavigation] and after [stopNavigation]. *)
Lemma start_then_stop_listeners (r : Route) (now : Z) (w : World) :
  hasGeolocation (browser w) = true ->
  hasDeviceOrientationEvent (browser w) = true ->
  onlyBoundListeners (browser w) ->
  let started := exec (startNavigation r now) w in
  let stopped := exec stopNavigation started in
  orientationListeners (browser started) =
    orientationListeners (browser w) ++ [(BoundHandler (nextBound (browser w)), true)] /\
  orientationListeners (browser stopped) = orientationListeners (browser started) /\
  onlyBoundListeners (browser stopped) /\
  isNavigating (self stopped) = false /\
  listeners (self stopped) = listeners (self w).
Proof.
  intros Hgeo Hori Hbound. cbv zeta.
  assert (forall l c, (l, c) ∈ orientationListeners (browser w) ->
            exists n, l = BoundHandler n) as Hb.
  { intros l c Hin. destruct (Hbound l c Hin) as (n & -> & _). eauto. }
  assert ((BoundHandler (nextBound (browser w)), true) ∉ orientationListeners (browser w))
    as Hfresh.
  { intros Hin. destruct (Hbound _ _ Hin) as (n & Heq & Hlt). simplify_eq. lia. }
  pose proof (filter_bound_listeners _ false Hb) as Hfilter.
  assert (forall l c,
            (l, c) ∈ orientationListeners (browser w) ++
                     [(BoundHandler (nextBound (browser w)), true)] ->
            exists n, l = BoundHandler n) as Hb'.
  { intros l c Hin. apply elem_of_app in Hin as [Hin|Hin]; [by eapply Hb|].
    apply list_elem_of_singleton in Hin. simplify_eq. eauto. }
  pose proof (filter_bound_listeners _ false Hb') as Hfilter'.
  assert (forall l c,
            (l, c) ∈ orientationListeners (browser w) ++
                     [(BoundHandler (nextBound (browser w)), true)] ->
            exists n, l = BoundHandler n /\ (n < S (nextBound (browser w)))%nat) as Hbound'.
  { intros l c Hin. apply elem_of_app in Hin as [Hin|Hin].
    - destruct (Hbound l c Hin) as (n & -> & Hlt). exists n. split; [done|]. lia.
    - apply list_elem_of_singleton in Hin. simplify_eq. eexists. split; [done|]. lia. }
  revert Hgeo Hori Hfresh Hfilter Hfilter' Hbound'. clear Hbound Hb Hb'.
  open_world w. cbn [browser hasGeolocation hasDeviceOrientationEvent orientationListeners
                     nextBound].
  intros -> -> Hfresh Hfilter Hfilter' Hbound'.
  unfold startNavigation, stopNavigation, requestPermissions, startGPSTracking,
    startCompassTracking, cacheRouteData, onlyBoundListeners.
  destruct nav, wid as [id0|], perm; run; rewrite ?Hfilter;
    rewrite decide_False by exact Hfresh; run; rewrite ?Hfilter';
    (split; [reflexivity|split; [reflexivity|split; [exact Hbound'|split; reflexivity]]]).
Qed.

(** X21.  With a compass, [startNavigation] followed by [stopNavigation]
    leaves one more orientation listener registered than before: the
    bound handler is never removed.  A compass reading delivered after
    the stop still sets the heading and emits [headingUpdate] once for
    every listener that is registered. *)
Theorem stopNavigation_leaves_compass_listener (r : Route) (now : Z) (w : World) :
  hasGeolocation (browser w) = true ->
  hasDeviceOrientationEvent (browser w) = true ->
  onlyBoundListeners (browser w) ->
  let started := exec (startNavigation r now) w in
  let stopped := exec stopNavigation started in
  orientationListeners (browser stopped) =
    orientationListeners (browser w) ++ [(BoundHandler (nextBound (browser w)), true)] /\
  onlyBoundListeners (browser stopped) /\
  isNavigating (self stopped) = false /\
  (forall a,
     exec (deliverOrientation (Some a)) stopped =
     mkWorld (set_currentHeading a (self stopped)) (browser stopped)
       (trace stopped ++
        map (fun _ => Emit "headingUpdate" (HeadingUpdate a)
                        (listeners (self w) !! "headingUpdate"))
          (orientationListeners (browser stopped)))).
Proof.
  intros Hgeo Hori Hbound. cbv zeta.
  destruct (start_then_stop_listeners r now w Hgeo Hori Hbound)
    as (Hstarted & Hstopped & Hbound' & Hnav & Hls).
  cbv zeta in *.
  set (stopped := exec stopNavigation (exec (startNavigation r now) w)) in *.
  rewrite Hstarted in Hstopped.
  split; [done|]. split; [done|]. split; [done|].
  intros a.
  change (exec (deliverOrientation (Some a)) stopped)
    with (exec (forEachListener (orientationListeners (browser stopped))
                  (handleOrientation (Some a))) stopped).
  rewrite forEachListener_handleOrientation, Hls; [done|].
  rewrite Hstopped. by destruct (orientationListeners (browser w)).
Qed.

Lemma stopNavigation_leaves_compass_listener_witness :
  orientationListeners
    (browser (exec stopNavigation (exec (startNavigation exampleRoute 1) compassWorld)))
  = [(BoundHandler 0, true)].
Proof.
  destruct (stopNavigation_leaves_compass_listener exampleRoute 1 compassWorld)
    as [H _]; [reflexivity | reflexivity | | exact H].
  intros l c Hin. by apply elem_of_nil in Hin.
Defined.

(** Reaching a waypoint that is not the end of the last leg. *)
Lemma handleWaypointReached_mid_route now w r wp :
  route (self w) = Some r ->
  (S (S (currentWaypointIndex (self w))) < length (waypoints r))%nat ->
  handleWaypointReached wp now w =
  (tt, mkWorld
         (set_currentWaypointIndex (S (currentWaypointIndex (self w))) (self w))
         (browser w)
         (trace w ++
          feedback (self w) (browser w) [200; 100; 200]%Z
            ("Waypoint reached: " +:+ wp_name wp) ++
          [Emit "alert" (Alert (waypointAlert wp now)) (listeners (self w) !! "alert");
           Emit "waypointReached" (WaypointReached wp (S (currentWaypointIndex (self w))))
             (listeners (self w) !! "waypointReached")])).
Proof.
  open_world w. cbn [self route currentWaypointIndex]. intros -> Hidx.
  unfold handleWaypointReached, waypointAlert.
  destruct vibr, vib, voice, speech; run;
    rewrite decide_False by lia; run; rewrite <- ?app_assoc; reflexivity.
Qed.

(** X22.  With a next waypoint at distance [d] of the fix:
    [checkWaypointProximity] does nothing when [d] is above the threshold
    and at least 0.5 NM; it emits only the approaching alert when [d] is
    above the threshold and below 0.5 NM; and within the threshold of a
    waypoint that does not end the last leg it moves the cursor by one and
    emits the feedback, the waypoint-reached alert and the
    [waypointReached] event with the new index. *)
Theorem checkWaypointProximity_alerts_or_advances
  (lat lon hdg spd : R) (now : Z) (w : World) (r : Route) (next : Waypoint) :
  route (self w) = Some r ->
  waypoints r !! S (currentWaypointIndex (self w)) = Some next ->
  let i := currentWaypointIndex (self w) in
  let ns := calculateNavigationState (mkPosition lat lon hdg spd) r i in
  let d := calculateDistance lat lon (wp_lat next) (wp_lon next) in
  let w' := exec (checkWaypointProximity lat lon ns now) w in
  (waypointThresholdNM (config (self w)) < d -> 0.5 <= d -> w' = w) /\
  (waypointThresholdNM (config (self w)) < d < 0.5 ->
   w' = mkWorld (self w) (browser w)
          (trace w ++
           [Emit "alert" (Alert (approachingAlert next d now))
              (listeners (self w) !! "alert")])) /\
  (d <= waypointThresholdNM (config (self w)) ->
   (S (S i) < length (waypoints r))%nat ->
   w' = mkWorld (set_currentWaypointIndex (S i) (self w)) (browser w)
          (trace w ++
           feedback (self w) (browser w) [200; 100; 200]%Z
             ("Waypoint reached: " +:+ wp_name next) ++
           [Emit "alert" (Alert (waypointAlert next now))
              (listeners (self w) !! "alert");
            Emit "waypointReached" (WaypointReached next (S i))
              (listeners (self w) !! "waypointReached")])).
Proof.
  intros Hr Hnext. cbv zeta.
  destruct (calculateNavigationState_next (mkPosition lat lon hdg spd) r
              (currentWaypointIndex (self w)) next Hnext) as [Hns Hd].
  cbn [pos_lat pos_lon] in Hd.
  set (ns := calculateNavigationState _ _ _) in *.
  set (d := calculateDistance lat lon (wp_lat next) (wp_lon next)) in *.
  unfold exec, checkWaypointProximity. rewrite Hns, !run_bind. cbn [fst snd this].
  unfold isNearWaypoint. fold d. rewrite Hd.
  split; [|split].
  - intros Hfar Hhalf.
    rewrite (bool_decide_eq_false_2 (d < 0.5)) by lra.
    rewrite (bool_decide_eq_false_2 (d <= _)) by lra.
    by destruct w.
  - intros [Hfar Hhalf].
    rewrite (bool_decide_eq_true_2 (d < 0.5)) by lra.
    rewrite (bool_decide_eq_true_2 (d > _)) by lra.
    rewrite (bool_decide_eq_false_2 (d <= _)) by lra.
    unfold approachingAlert. by destruct w.
  - intros Hnear Hmid.
    rewrite (bool_decide_eq_false_2 (d > _)) by lra.
    rewrite (bool_decide_eq_true_2 (d <= _)) by lra.
    rewrite andb_false_r. cbn [when]. unfold ret. cbn [snd].
    by rewrite (handleWaypointReached_mid_route now w r next Hr Hmid).
Qed.


Lemma checkWaypointProximity_alerts_or_advances_witness :
  currentWaypointIndex
    (self (exec (checkWaypointProximity 0 0.5
                   (calculateNavigationState (mkPosition 0 0.5 90 5) threePointRoute 0) 2)
             threePointWorld)) = 1%nat.
Proof.
  destruct (checkWaypointProximity_alerts_or_advances 0 0.5 90 5 2
              threePointWorld threePointRoute midWaypoint) as (_ & _ & Hnear);
    [reflexivity | reflexivity |].
  change (currentWaypointIndex (self threePointWorld)) with 0%nat in Hnear.
  rewrite Hnear; [reflexivity | | ].
  - cbn [midWaypoint wp_lat wp_lon]. rewrite calculateDistance_self.
    change (waypointThresholdNM (config (self threePointWorld))) with 0.1. lra.
  - change (length (waypoints threePointRoute)) with 3%nat. lia.
Defined.

(** The proximity and course checks leave the three buffers alone. *)
Lemma handleWaypointReached_buffers wp now w :
  buffers (exec (handleWaypointReached wp now) w) = buffers w.
Proof.
  open_world w. unfold handleWaypointReached, handleDestinationReached, stopNavigation, buffers.
  destruct vibr, vib, voice, speech, rt as [r|]; run; try reflexivity;
    case_decide; run; try reflexivity;
    destruct (last (waypoints r)); run; try reflexivity;
    destruct wid, ori; run; reflexivity.
Qed.

Lemma when_emitAlert_buffers (b : bool) (a : NavigationAlert) (w : World) :
  buffers (exec (when b (emitAlert a)) w) = buffers w.
Proof. destruct b; by destruct w. Qed.

Lemma checkWaypointProximity_buffers lat lon ns now w :
  buffers (exec (checkWaypointProximity lat lon ns now) w) = buffers w.
Proof.
  unfold checkWaypointProximity. destruct (nextWaypoint ns) as [next|]; [|done].
  rewrite exec_bind. cbn [this fst]. rewrite exec_bind.
  assert (exec this w = w) as -> by done.
  destruct (isNearWaypoint _ _ _ _ _); cbn [when].
  - by rewrite handleWaypointReached_buffers, when_emitAlert_buffers.
  - apply when_emitAlert_buffers.
Qed.

Lemma checkCourseDeviation_buffers ns now w :
  buffers (exec (checkCourseDeviation ns now) w) = buffers w.
Proof.
  unfold checkCourseDeviation. destruct (nextWaypoint ns); [|done].
  cbv zeta. rewrite exec_bind.
  by rewrite !when_emitAlert_buffers.
Qed.

Lemma length_capped {A : Type} (limit : nat) (l : list A) (x : A) :
  (length l <= limit)%nat ->
  length (capped limit (l ++ [x])) = Nat.min (S (length l)) limit.
Proof.
  intros Hl. unfold capped. rewrite length_app. cbn [length].
  case_decide; rewrite ?length_drop, ?length_app; cbn [length]; lia.
Qed.

(** What a fix adds to the three buffers while navigating. *)
Lemma handlePositionUpdate_buffers coords now w r :
  route (self w) = Some r -> isNavigating (self w) = true ->
  exists knots entry position,
    buffers (exec (handlePositionUpdate coords now) w) =
      (capped 5 (smoothedSpeeds (self w) ++ [knots]),
       capped 100 (navigationHistory (self w) ++ [entry]),
       capped 100 (storedNavigationPositions (browser w) ++ [position])) /\
    knots = match coords_speed coords with
            | Some s => if decide (s = 0) then 0 else s * 1.94384
            | None => 0
            end /\
    (hist_lat entry, hist_lon entry, hist_timestamp entry) =
      (latitude coords, longitude coords, now) /\
    (cached_lat position, cached_lon position, cached_timestamp position) =
      (latitude coords, longitude coords, now).
Proof.
  open_world w. cbn [self route isNavigating]. intros -> ->.
  unfold handlePositionUpdate, smoothSpeed, cachePosition, capped, buffers.
  destruct (coords_heading coords) as [h|]; run.
  all: match goal with
       | |- context [checkWaypointProximity ?a ?b ?ns ?n ?w1] =>
           let H2 := fresh "H2" in
           let w2 := fresh "w2" in
           pose proof (checkWaypointProximity_buffers a b ns n w1) as H2;
           unfold exec in H2;
           destruct (checkWaypointProximity a b ns n w1) as [[] w2];
           cbn [snd] in H2;
           match goal with
           | |- context [checkCourseDeviation ?ns' ?n' ?wx] =>
               let H3 := fresh "H3" in
               let w3 := fresh "w3" in
               pose proof (checkCourseDeviation_buffers ns' n' wx) as H3;
               unfold exec in H3;
               destruct (checkCourseDeviation ns' n' wx) as [[] w3];
               cbn [snd] in H3; rewrite H2 in H3; clear H2;
               destruct w3 as [[] [] ?]; unfold buffers in H3; run; cbn in H3;
               simplify_eq
           end
       end;
       eexists _, _, _; split; [reflexivity|]; split; [reflexivity|];
       split; reflexivity.
Qed.

(** X23.  [handlePositionUpdate] keeps the speed window within 5
    entries and the navigation history and the stored positions within
    100; while navigating each of the three grows by one entry until it
    is full. *)
Theorem handlePositionUpdate_keeps_buffers_bounded
  (coords : Coords) (now : Z) (w : World) :
  buffersBounded w ->
  let w' := exec (handlePositionUpdate coords now) w in
  buffersBounded w' /\
  (is_Some (route (self w)) -> isNavigating (self w) = true ->
   length (smoothedSpeeds (self w')) = Nat.min (S (length (smoothedSpeeds (self w)))) 5 /\
   length (navigationHistory (self w')) =
     Nat.min (S (length (navigationHistory (self w)))) 100 /\
   length (storedNavigationPositions (browser w')) =
     Nat.min (S (length (storedNavigationPositions (browser w)))) 100).
Proof.
  intros (Hs & Hh & Hp). cbv zeta.
  assert (is_Some (route (self w)) -> isNavigating (self w) = true ->
          length (smoothedSpeeds (self (exec (handlePositionUpdate coords now) w))) =
            Nat.min (S (length (smoothedSpeeds (self w)))) 5 /\
          length (navigationHistory (self (exec (handlePositionUpdate coords now) w))) =
            Nat.min (S (length (navigationHistory (self w)))) 100 /\
          length (storedNavigationPositions
                    (browser (exec (handlePositionUpdate coords now) w))) =
            Nat.min (S (length (storedNavigationPositions (browser w)))) 100) as Hgrow.
  { intros [r Hr] Hnav.
    destruct (handlePositionUpdate_buffers coords now w r Hr Hnav)
      as (knots & entry & position & Hb & _).
    unfold buffers in Hb. simplify_eq.
    repeat match goal with H : _ = capped _ _ |- _ => rewrite H; clear H end.
    by rewrite !length_capped. }
  split; [|exact Hgrow].
  destruct (route (self w)) as [r|] eqn:Hr.
  - destruct (isNavigating (self w)) eqn:Hnav.
    + destruct (Hgrow ltac:(eauto) eq_refl) as (H1 & H2 & H3).
      unfold buffersBounded. rewrite H1, H2, H3. lia.
    + unfold exec. rewrite handlePositionUpdate_idle by (by right). done.
  - unfold exec. rewrite handlePositionUpdate_idle by (by left). done.
Qed.

Lemma handlePositionUpdate_keeps_buffers_bounded_witness :
  buffersBounded (exec (handlePositionUpdate fixAtDestination 2) startedWorld).
Proof.
  apply (handlePositionUpdate_keeps_buffers_bounded fixAtDestination 2 startedWorld).
  unfold buffersBounded.
  change (smoothedSpeeds (self startedWorld)) with (@nil R).
  change (navigationHistory (self startedWorld)) with (@nil HistoryEntry).
  change (storedNavigationPositions (browser startedWorld)) with (@nil CachedPosition).
  cbn [length]. lia.
Defined.

(** A mean lies between the bounds of what it is taken of. *)
Lemma fold_left_Rplus_bounds (l : list R) (lo hi a : R) :
  (forall v, v ∈ l -> lo <= v <= hi) ->
  a + INR (length l) * lo <= fold_left Rplus l a <= a + INR (length l) * hi.
Proof.
  revert a. induction l as [|v l IH]; intros a Hl.
  - simpl. lra.
  - cbn [fold_left]. rewrite length_cons, S_INR.
    destruct (Hl v ltac:(left)) as [Hlo Hhi].
    specialize (IH (a + v) ltac:(intros u Hu; apply Hl; by right)). lra.
Qed.

Lemma mean_bounds (l : list R) (lo hi : R) :
  l <> [] -> (forall v, v ∈ l -> lo <= v <= hi) ->
  lo <= fold_left Rplus l 0 / INR (length l) <= hi.
Proof.
  intros Hne Hl. pose proof (fold_left_Rplus_bounds l lo hi 0 Hl) as Hsum.
  assert (0 < INR (length l)) as Hlen.
  { apply lt_0_INR. destruct l; [done|]. simpl. lia. }
  split.
  - apply (Rmult_le_reg_r (INR (length l))); [done|]. unfold Rdiv.
    rewrite Rmult_assoc, Rinv_l by lra. lra.
  - apply (Rmult_le_reg_r (INR (length l))); [done|]. unfold Rdiv.
    rewrite Rmult_assoc, Rinv_l by lra. lra.
Qed.

(** X24.  The speed that [smoothSpeed] returns lies between every two
    bounds that hold the readings of the window and the new reading; it
    is the new reading itself on an empty window, and the new reading is
    the last entry of the window afterwards. *)
Theorem smoothSpeed_within_readings (newSpeed lo hi : R) (w : World) :
  (forall v, v ∈ smoothedSpeeds (self w) -> lo <= v <= hi) ->
  lo <= newSpeed <= hi ->
  lo <= fst (smoothSpeed newSpeed w) <= hi /\
  (smoothedSpeeds (self w) = [] -> fst (smoothSpeed newSpeed w) = newSpeed) /\
  last (smoothedSpeeds (self (exec (smoothSpeed newSpeed) w))) = Some newSpeed.
Proof.
  open_world w. cbn [self smoothedSpeeds]. intros Hold Hnew.
  unfold smoothSpeed. run.
  assert (forall v, v ∈ sm ++ [newSpeed] -> lo <= v <= hi) as Hall.
  { intros v Hv. apply elem_of_app in Hv as [Hv|Hv]; [by apply Hold|].
    apply list_elem_of_singleton in Hv. by subst v. }
  split; [|split].
  - apply mean_bounds.
    + case_decide as Hlen; [|by destruct sm].
      rewrite length_app in Hlen. cbn [length] in Hlen.
      destruct sm as [|? [|? ?]]; cbn in Hlen |- *; [lia|lia|done].
    + intros v Hv. apply Hall. case_decide; [|done].
      apply list_elem_of_lookup in Hv as [i Hi]. rewrite lookup_drop in Hi.
      by eapply list_elem_of_lookup_2.
  - intros ->. cbn [app length]. rewrite decide_False by lia.
    cbn [fold_left length INR]. field.
  - destruct (decide _) as [Hlen|Hlen]; [|apply last_snoc].
    rewrite length_app in Hlen. cbn [length] in Hlen.
    destruct sm as [|x rest]; [cbn in Hlen; lia|].
    cbn [app drop]. apply last_snoc.
Qed.

Lemma smoothSpeed_within_readings_witness :
  2 <= fst (smoothSpeed 2 freshWorld) <= 2.
Proof.
  apply (smoothSpeed_within_readings 2 2 2 freshWorld).
  - intros v Hv. by apply elem_of_nil in Hv.
  - lra.
Defined.

(** X25.  After [stopNavigation] the controller has no route, no watch
    and cursor 0; [resumeNavigation], [skipToNextWaypoint] and a position
    fix change nothing; and a second [stopNavigation] changes neither the
    controller nor the active watches. *)
Theorem stopped_controller_is_inert (w : World) :
  let stopped := exec stopNavigation w in
  route (self stopped) = None /\ isNavigating (self stopped) = false /\
  watchId (self stopped) = None /\ currentWaypointIndex (self stopped) = 0%nat /\
  resumeNavigation stopped = (tt, stopped) /\
  skipToNextWaypoint stopped = (tt, stopped) /\
  (forall coords now, handlePositionUpdate coords now stopped = (tt, stopped)) /\
  self (exec stopNavigation stopped) = self stopped /\
  activeWatches (browser (exec stopNavigation stopped)) = activeWatches (browser stopped).
Proof.
  cbv zeta. destruct (stopNavigation_run w) as (b' & Hrun & _).
  set (stopped := exec stopNavigation w).
  assert (self stopped =
          set_currentWaypointIndex 0
            (set_route None (set_isNavigating false (set_watchId None (self w)))))
    as Hself by (subst stopped; unfold exec; by rewrite Hrun).
  clear Hrun.
  assert (route (self stopped) = None) as Hroute
    by (rewrite Hself; by destruct (self w)).
  assert (watchId (self stopped) = None) as Hwatch
    by (rewrite Hself; by destruct (self w)).
  split; [done|]. split; [rewrite Hself; by destruct (self w)|]. split; [done|].
  split; [rewrite Hself; by destruct (self w)|].
  split; [|split; [|split; [|split]]].
  - unfold resumeNavigation. rewrite run_bind. cbn [this fst snd]. by rewrite Hroute.
  - unfold skipToNextWaypoint. rewrite run_bind. cbn [this fst snd]. by rewrite Hroute.
  - intros coords now. apply handlePositionUpdate_idle. by left.
  - destruct (stopNavigation_run stopped) as (b'' & Hrun' & _).
    unfold exec at 1. rewrite Hrun'. cbn [snd self].
    rewrite Hself. by destruct (self w).
  - destruct (stopNavigation_run stopped) as (b'' & Hrun' & Hw).
    unfold exec at 1. rewrite Hrun'. cbn [snd browser]. by rewrite Hw, Hwatch.
Qed.

End ControllerBehaviour.
